(** * Loop dispatch of threads/threads.c

    A shallow embedding of [X(spawn_loop)] and [X(threads_init)] and the
    properties of the block partition they compute.

    The C functions are rendered as follows.
    - [uint] values are integers of [Z] in [0, 2^w); every [+], [-] and [*]
      of the source is followed by its reduction modulo [2^w].  The width
      [w] of [unsigned int] is fixed by the platform, not by threads.c, and
      stays a parameter of the development.
    - A call of [X(spawn_loop)] yields either the sequence of the effects it
      performs (threads spawned, [proc] run by the caller, threads waited
      for) or the way it stops early (failed assertion, division by zero).
    - The preprocessor symbols that select one variant of the code are the
      fields of a [config]. *)

From Stdlib Require Import ZArith List Sorted Lia Bool.
Import ListNotations.
Local Open Scope Z_scope.

(** ** Build configuration *)

(** The [USING_*_THREADS] symbols, in the order of the [#if]/[#elif] chain. *)
Inductive thread_api : Type :=
| SOLARIS | BEOS | MACOS | WIN32 | MACH | OPENMP | SGIMP | POSIX.

Record config : Type := mkconfig {
  HAVE_THREADS : bool;
  USING : option thread_api
}.

(** [#define USING_COMPILER_THREADS 1] sits in the OpenMP / SGI MP branch. *)
Definition USING_COMPILER_THREADS (cfg : config) : bool :=
  match USING cfg with
  | Some OPENMP | Some SGIMP => true
  | _ => false
  end.

(** [#error HAVE_THREADS is defined without any USING_*_THREADS] *)
Definition compiles (cfg : config) : bool :=
  match USING cfg with
  | None => negb (HAVE_THREADS cfg)
  | Some _ => true
  end.

(** ** Outcomes *)

Inductive result (A : Type) : Type :=
| Ok (a : A)
| AssertionFailed
| DivisionByZero
| OutOfFuel.

Arguments Ok {A} a.
Arguments AssertionFailed {A}.
Arguments DivisionByZero {A}.
Arguments OutOfFuel {A}.

Definition bind {A B : Type} (r : result A) (k : A -> result B) : result B :=
  match r with
  | Ok a => k a
  | AssertionFailed => AssertionFailed
  | DivisionByZero => DivisionByZero
  | OutOfFuel => OutOfFuel
  end.

Notation "x <- r ;; k" := (bind r (fun x => k))
  (at level 61, r at next level, right associativity).
Notation "' pat <- r ;; k" := (bind r (fun x => match x with pat => k end))
  (at level 61, pat pattern, r at next level, right associativity).

Definition result_map {A B : Type} (f : A -> B) (r : result A) : result B :=
  x <- r ;; Ok (f x).

(** Modelled from the spec: the macro [A] of ifftw.h, which is not part of
    the sources at hand.  The spec calls it a defensive assertion that treats
    a violated precondition as a caller bug: the call stops there. *)
Definition A (ex : bool) : result unit :=
  if ex then Ok tt else AssertionFailed.

(** ** Data *)

(** [void *] *)
Definition pointer : Type := Z.

(** [spawn_data] of threads.h *)
Record spawn_data : Type := mkspawn_data {
  min : Z;
  max : Z;
  thr_num : Z;
  data : pointer
}.

(** What a call does, in program order.  [fftw_thr_spawn i d] is
    [fftw_thr_spawn(&tid[i], proc, &d[i])] with the contents [d] of [d[i]],
    which [X(spawn_loop)] writes once, just before the spawn, and never
    again; [proc d] is [proc(&d)] run by the caller itself; [fftw_thr_wait i]
    is [fftw_thr_wait(tid[i])].
    [THREAD_ON] and [THREAD_OFF] are macros of the headers, kept as marks. *)
Inductive event : Type :=
| THREAD_ON
| THREAD_OFF
| fftw_thr_spawn (i : Z) (d : spawn_data)
| proc (d : spawn_data)
| fftw_thr_wait (i : Z).

Definition trace : Type := list event.

(** The blocks of iterations handed to [proc], by whichever thread. *)
Definition ranges (tr : trace) : list spawn_data :=
  flat_map (fun e => match e with
                     | fftw_thr_spawn _ d => [d]
                     | proc d => [d]
                     | _ => []
                     end) tr.

(** The threads created. *)
Definition spawned (tr : trace) : list spawn_data :=
  flat_map (fun e => match e with
                     | fftw_thr_spawn _ d => [d]
                     | _ => []
                     end) tr.

(** The blocks run by the calling thread. *)
Definition run_by_caller (tr : trace) : list spawn_data :=
  flat_map (fun e => match e with
                     | proc d => [d]
                     | _ => []
                     end) tr.

(** A block without its [data] pointer. *)
Definition bounds (d : spawn_data) : Z * Z * Z := (min d, max d, thr_num d).

(** The blocks of a call as [(min, max, thr_num)], in program order. *)
Definition outline (tr : trace) : list (Z * Z * Z) := map bounds (ranges tr).

(** Number of iterations of a block. *)
Definition size (d : spawn_data) : Z := max d - min d.

(** Iteration [x] belongs to block [d]. *)
Definition covers (d : spawn_data) (x : Z) : Prop := min d <= x < max d.

Section Uint.

(** Number of bits of [uint]. *)
Variable w : Z.

Definition is_uint (x : Z) : Prop := 0 <= x < 2 ^ w.

Definition wrap (x : Z) : Z := x mod 2 ^ w.

Definition uadd (a b : Z) : Z := wrap (a + b).
Definition usub (a b : Z) : Z := wrap (a - b).
Definition umul (a b : Z) : Z := wrap (a * b).

(** Division of C: undefined when the divisor is zero. *)
Definition udiv (a b : Z) : result Z :=
  if b =? 0 then DivisionByZero else Ok (a / b).

(** [for (i = i0; i < n; ++i) body], with the value of [i] after the loop. *)
Fixpoint for_loop {S : Type} (fuel : nat) (i n : Z) (body : Z -> S -> S)
  (s : S) : result (Z * S) :=
  if i <? n then
    match fuel with
    | O => OutOfFuel
    | Datatypes.S fuel' => for_loop fuel' (uadd i 1) n body (body i s)
    end
  else Ok (i, s).

(** Lines 294-295: the block size and the number of threads. *)
Definition block_size_and_nthr (loopmax nthr : Z) : result (Z * Z) :=
  block_size <- udiv (usub (uadd loopmax nthr) 1) nthr ;;
  nthr <- udiv (usub (uadd loopmax block_size) 1) block_size ;;
  Ok (block_size, nthr).

(** The single block of the branch [nthr <= 1], and of the variant without
    threads. *)
Definition whole_loop (loopmax : Z) (data : pointer) : trace :=
  [proc (mkspawn_data 0 loopmax 0 data)].

(** Lines 324-331: the loop under [#pragma omp parallel for private(d)] (or
    SGI's [pfor]), its iterations listed by index. *)
Definition compiler_threads_body (loopmax block_size : Z) (data : pointer)
  (i : Z) (tr : trace) : trace :=
  let d_min := umul i block_size in
  let d_max := uadd d_min block_size in
  let d_max := if loopmax <? d_max then loopmax else d_max in
  tr ++ [proc (mkspawn_data d_min d_max i data)].

(** Lines 341-347. *)
Definition spawn_body (block_size : Z) (data : pointer)
  (i : Z) (tr : trace) : trace :=
  let d_min := umul i block_size in
  let d_max := uadd d_min block_size in
  tr ++ [fftw_thr_spawn i (mkspawn_data d_min d_max i data)].

(** Lines 354-355. *)
Definition wait_body (i : Z) (tr : trace) : trace :=
  tr ++ [fftw_thr_wait i].

(** [X(spawn_loop)], both definitions (lines 281-364 and 367-376).
    [STACK_MALLOC] and [STACK_FREE] are macros of the headers that only
    allocate and release [d] and [tid]; the size given for [tid] is
    [sizeof(fftw_thr_id) * (--nthr)], which takes one off [nthr] before the
    loops. *)
Definition spawn_loop (cfg : config) (loopmax nthr : Z) (data : pointer)
  : result trace :=
  if HAVE_THREADS cfg then
    _ <- A (0 <? loopmax) ;;
    _ <- A (0 <? nthr) ;;
    '(block_size, nthr) <- block_size_and_nthr loopmax nthr ;;
    if nthr <=? 1 then Ok (whole_loop loopmax data)
    else if USING_COMPILER_THREADS cfg then
      '(_, tr) <- for_loop (Z.to_nat nthr) 0 nthr
                    (compiler_threads_body loopmax block_size data)
                    [THREAD_ON] ;;
      Ok (tr ++ [THREAD_OFF])
    else
      let nthr := usub nthr 1 in
      '(i, tr) <- for_loop (Z.to_nat nthr) 0 nthr
                    (spawn_body block_size data) [THREAD_ON] ;;
      let tr := tr ++ [proc (mkspawn_data (umul i block_size) loopmax i data)] in
      '(_, tr) <- for_loop (Z.to_nat nthr) 0 nthr wait_body tr ;;
      Ok (tr ++ [THREAD_OFF])
  else Ok (whole_loop loopmax data).

End Uint.


(** ** Initialisation *)

(** What the calls made by [X(threads_init)] answer: the value each pthread
    function returns, the attribute two of them store through their second
    argument, and [MPLibraryIsLoaded()]. *)
Record environment : Type := mkenvironment {
  pthread_attr_init : Z;
  pthread_attr_getdetachstate : Z * Z;
  pthread_attr_setdetachstate : Z;
  pthread_attr_getscope : Z * Z;
  pthread_attr_setscope : Z;
  pthread_attr_destroy : Z;
  MPLibraryIsLoaded : bool;
  PTHREAD_CREATE_JOINABLE : Z;
  PTHREAD_SCOPE_SYSTEM : Z
}.

(** The globals [X(threads_init)] assigns: whether
    [fftw_pthread_attributes_p] points to [fftw_pthread_attributes] (or is
    [NULL]), whether the allocation hooks are those of the MP library, and
    whether the three register hooks are set. *)
Record globals : Type := mkglobals {
  fftw_pthread_attributes_p : bool;
  malloc_hooks : bool;
  register_hooks : bool
}.

(** Lines 409-444; [Some err] is [return err]. *)
Definition posix_attributes (env : environment) (g : globals)
  : option Z * globals :=
  let err := pthread_attr_init env in
  if negb (err =? 0) then (Some err, g) else
  let '(err, attr) := pthread_attr_getdetachstate env in
  if negb (err =? 0) then (Some err, g) else
  let set_detach := negb (attr =? PTHREAD_CREATE_JOINABLE env) in
  let err := if set_detach then pthread_attr_setdetachstate env else err in
  if negb (err =? 0) then (Some err, g) else
  let attr_changed := set_detach in
  let '(err, attr) := pthread_attr_getscope env in
  if negb (err =? 0) then (Some err, g) else
  let set_scope := negb (attr =? PTHREAD_SCOPE_SYSTEM env) in
  let err := if set_scope then pthread_attr_setscope env else err in
  if negb (err =? 0) then (Some err, g) else
  let attr_changed := attr_changed || set_scope in
  if attr_changed then
    (None, mkglobals true (malloc_hooks g) (register_hooks g))
  else
    let g := mkglobals false (malloc_hooks g) (register_hooks g) in
    let err := pthread_attr_destroy env in
    if negb (err =? 0) then (Some err, g) else (None, g).

(** [X(threads_init)]: the status returned and the globals afterwards. *)
Definition threads_init (cfg : config) (env : environment) (g : globals)
  : Z * globals :=
  match
    match USING cfg with
    | Some POSIX => posix_attributes env g
    | _ => (None, g)
    end
  with
  | (Some err, g) => (err, g)
  | (None, g) =>
    let g :=
      match USING cfg with
      | Some MACOS =>
        if MPLibraryIsLoaded env
        then mkglobals (fftw_pthread_attributes_p g) true (register_hooks g)
        else g
      | _ => g
      end in
    if HAVE_THREADS cfg then
      (0, mkglobals (fftw_pthread_attributes_p g) (malloc_hooks g) true)
    else (-31416, g)
  end.

(** ** What a partition of the loop is *)

(** Iterations [0 .. loopmax-1] each belong to exactly one block of [ds], and
    the blocks come in the order of their thread numbers. *)
Record partitions (loopmax : Z) (ds : list spawn_data) : Prop := {
  pairwise_disjoint :
    ForallOrdPairs (fun a b => forall x, ~ (covers a x /\ covers b x)) ds;
  sorted_by_thr_num :
    StronglySorted (fun a b => thr_num a < thr_num b) ds;
  union_is_loop :
    forall x, (exists d, In d ds /\ covers d x) <-> 0 <= x < loopmax
}.

(** Consecutive non-empty blocks from [lo] to [hi], numbered from [k]. *)
Fixpoint chain (lo k : Z) (ds : list spawn_data) (hi : Z) : Prop :=
  match ds with
  | [] => lo = hi
  | d :: ds' =>
    min d = lo /\ lo < max d /\ thr_num d = k /\ chain (max d) (k + 1) ds' hi
  end.

(** [i; i+1; ...], [len] of them. *)
Fixpoint zseq (i : Z) (len : nat) : list Z :=
  match len with
  | O => []
  | S len' => i :: zseq (i + 1) len'
  end.

(** The blocks in closed form: [nthr] blocks of [block_size] iterations, the
    last one cut at [loopmax]. *)
Definition blocks (loopmax block_size nthr : Z) (data : pointer)
  : list spawn_data :=
  map (fun i => mkspawn_data (i * block_size)
                  (Z.min (i * block_size + block_size) loopmax) i data)
      (zseq 0 (Z.to_nat nthr)).

(** The largest block. *)
Definition critical_path (ds : list spawn_data) : Z :=
  fold_right (fun d m => Z.max (size d) m) 0 ds.

(** The effects of the compiler-managed variant in closed form. *)
Definition compiler_trace (loopmax block_size nthr : Z) (data : pointer)
  : trace :=
  [THREAD_ON] ++ map proc (blocks loopmax block_size nthr data)
    ++ [THREAD_OFF].

(** The effects of the variant that spawns threads, in closed form: [nthr - 1]
    threads spawned on full blocks, the last block run by the caller, then
    the [nthr - 1] threads waited for. *)
Definition spawning_trace (loopmax block_size nthr : Z) (data : pointer)
  : trace :=
  [THREAD_ON]
    ++ map (fun i => fftw_thr_spawn i
                       (mkspawn_data (i * block_size)
                          (i * block_size + block_size) i data))
         (zseq 0 (Z.to_nat (nthr - 1)))
    ++ [proc (mkspawn_data ((nthr - 1) * block_size) loopmax (nthr - 1) data)]
    ++ map fftw_thr_wait (zseq 0 (Z.to_nat (nthr - 1)))
    ++ [THREAD_OFF].

(** All the iterations handed out. *)
Definition total_size (ds : list spawn_data) : Z :=
  fold_right (fun d s => size d + s) 0 ds.

(** The threads running after the events of [tr], given those running
    before: a spawn into a slot [tid[i]] still in use, or a wait on a slot
    that holds no running thread, is an error. *)
Fixpoint live_after (live : list Z) (tr : trace) : option (list Z) :=
  match tr with
  | [] => Some live
  | fftw_thr_spawn i _ :: tr' =>
    if existsb (Z.eqb i) live then None
    else live_after (live ++ [i]) tr'
  | fftw_thr_wait i :: tr' =>
    if existsb (Z.eqb i) live
    then live_after (filter (fun j => negb (j =? i)) live) tr'
    else None
  | _ :: tr' => live_after live tr'
  end.

(** The threads running at each call of [proc] by the caller. *)
Fixpoint live_at_calls (live : list Z) (tr : trace) : list (list Z) :=
  match tr with
  | [] => []
  | fftw_thr_spawn i _ :: tr' => live_at_calls (live ++ [i]) tr'
  | fftw_thr_wait i :: tr' =>
    live_at_calls (filter (fun j => negb (j =? i)) live) tr'
  | proc _ :: tr' => live :: live_at_calls live tr'
  | _ :: tr' => live_at_calls live tr'
  end.

(** The slots [tid[i]] waited for, in program order. *)
Definition waited (tr : trace) : list Z :=
  flat_map (fun e => match e with
                     | fftw_thr_wait i => [i]
                     | _ => []
                     end) tr.

(** ** Lists of blocks *)

Lemma chain_bounds lo k ds hi :
  chain lo k ds hi ->
  lo <= hi /\
  Forall (fun d => lo <= min d /\ max d <= hi /\ k <= thr_num d) ds.
Proof.
  revert lo k. induction ds as [|d ds IH]; simpl; intros lo k H.
  - split; [lia | constructor].
  - destruct H as (Hmin & Hlt & Hk & Hrest).
    destruct (IH _ _ Hrest) as [Hle Hall].
    split; [lia|]. constructor; [lia|].
    eapply Forall_impl; [|exact Hall]. simpl. intros; lia.
Qed.

Lemma chain_app lo k ds1 mid ds2 hi :
  chain lo k ds1 mid ->
  chain mid (k + Z.of_nat (length ds1)) ds2 hi ->
  chain lo k (ds1 ++ ds2) hi.
Proof.
  revert lo k. induction ds1 as [|d ds1 IH]; simpl; intros lo k H1 H2.
  - subst mid. now rewrite Z.add_0_r in H2.
  - destruct H1 as (Hmin & Hlt & Hk & Hrest).
    repeat split; trivial. apply IH; trivial.
    replace (k + 1 + Z.of_nat (length ds1))
      with (k + Z.pos (Pos.of_succ_nat (length ds1))) by lia.
    exact H2.
Qed.

Lemma chain_partitions_from lo k ds hi :
  chain lo k ds hi ->
  ForallOrdPairs (fun a b => forall x, ~ (covers a x /\ covers b x)) ds /\
  StronglySorted (fun a b => thr_num a < thr_num b) ds /\
  (forall x, (exists d, In d ds /\ covers d x) <-> lo <= x < hi).
Proof.
  revert lo k. induction ds as [|d ds IH]; simpl; intros lo k H.
  - split; [constructor | split; [constructor|]].
    intros x. split.
    + intros (d & [] & _).
    + lia.
  - destruct H as (Hmin & Hlt & Hk & Hrest).
    destruct (chain_bounds _ _ _ _ Hrest) as [Hle Hall].
    destruct (IH _ _ Hrest) as (Hd & Hs & Hu).
    split; [|split; [|intros x; split]].
    + constructor; trivial.
      eapply Forall_impl; [|exact Hall]. unfold covers. simpl. intros; lia.
    + constructor; trivial.
      eapply Forall_impl; [|exact Hall]. simpl. intros; lia.
    + intros (d' & [<-|Hin] & Hc).
      * unfold covers in Hc. lia.
      * assert (max d <= x < hi) by (apply Hu; eauto). lia.
    + intros Hx. destruct (Z_lt_le_dec x (max d)) as [Hlo|Hhi].
      * exists d. unfold covers. split; [now left | lia].
      * destruct (proj2 (Hu x)) as (d' & Hin & Hc); [lia|].
        exists d'. split; [now right | exact Hc].
Qed.

Lemma chain_partitions ds loopmax :
  chain 0 0 ds loopmax -> partitions loopmax ds.
Proof.
  intros H. destruct (chain_partitions_from _ _ _ _ H) as (Hd & Hs & Hu).
  now constructor.
Qed.

Lemma zseq_length i len : length (zseq i len) = len.
Proof. revert i. induction len; simpl; intros; [reflexivity | now rewrite IHlen]. Qed.

Lemma zseq_snoc i len : zseq i (S len) = zseq i len ++ [i + Z.of_nat len].
Proof.
  revert i. induction len as [|len IH]; intros i.
  - simpl. now rewrite Z.add_0_r.
  - change (zseq i (S (S len))) with (i :: zseq (i + 1) (S len)).
    rewrite IH. change (zseq i (S len)) with (i :: zseq (i + 1) len).
    rewrite <- app_comm_cons, (Nat2Z.inj_succ len).
    now replace (i + 1 + Z.of_nat len) with (i + Z.succ (Z.of_nat len)) by lia.
Qed.

Lemma in_zseq i len x : In x (zseq i len) <-> i <= x < i + Z.of_nat len.
Proof.
  revert i. induction len as [|len IH]; intros i.
  - simpl. lia.
  - change (zseq i (S len)) with (i :: zseq (i + 1) len).
    rewrite Nat2Z.inj_succ. simpl In. rewrite IH. lia.
Qed.

(** ** Arithmetic of [uint] *)

Section Arithmetic.

Variable w : Z.

Lemma is_uint_modulus x : is_uint w x -> 0 < 2 ^ w.
Proof. unfold is_uint. lia. Qed.

Lemma wrap_small x : 0 <= x < 2 ^ w -> wrap w x = x.
Proof. intros H. unfold wrap. now apply Z.mod_small. Qed.

Lemma wrap_once x : 2 ^ w <= x < 2 * 2 ^ w -> wrap w x = x - 2 ^ w.
Proof.
  intros H. unfold wrap.
  symmetry. apply (Z.mod_unique x (2 ^ w) 1); lia.
Qed.

Lemma usub_uadd a b c : usub w (uadd w a b) c = wrap w (a + b - c).
Proof. unfold usub, uadd, wrap. apply Zminus_mod_idemp_l. Qed.

(** The ceiling of [a / b], as lines 294-295 write it. *)
Lemma ceiling_bounds a b :
  0 < a -> 0 < b ->
  1 <= (a + b - 1) / b <= a /\
  a <= b * ((a + b - 1) / b) <= a + b - 1.
Proof.
  intros Ha Hb.
  pose proof (Z.div_mod (a + b - 1) b ltac:(lia)) as Hdm.
  pose proof (Z.mod_pos_bound (a + b - 1) b Hb) as Hm.
  set (q := (a + b - 1) / b) in *.
  assert (1 <= q) by nia.
  assert (q <= a) by nia.
  lia.
Qed.

(** The two divisions on integers that do not wrap. *)
Lemma block_partition_bounds loopmax nthr :
  0 < loopmax -> 0 < nthr ->
  let block_size := (loopmax + nthr - 1) / nthr in
  let nthr' := (loopmax + block_size - 1) / block_size in
  1 <= block_size <= loopmax /\
  1 <= nthr' <= nthr /\ nthr' <= loopmax /\
  (nthr' - 1) * block_size < loopmax <= nthr' * block_size /\
  nthr' * block_size <= loopmax + block_size - 1.
Proof.
  intros Hl Hn. cbv zeta.
  destruct (ceiling_bounds loopmax nthr Hl Hn) as [Hb1 Hb2].
  set (bs := (loopmax + nthr - 1) / nthr) in *.
  destruct (ceiling_bounds loopmax bs Hl ltac:(lia)) as [Hn1 Hn2].
  set (n := (loopmax + bs - 1) / bs) in *.
  assert (n <= nthr) by nia.
  repeat split; try lia; nia.
Qed.

(** Lines 294-295 on [uint]: the first sum wraps and the second division
    is by zero, or only the second sum wraps and no thread is left, or
    neither wraps. *)
Lemma block_size_and_nthr_cases loopmax nthr :
  is_uint w loopmax -> is_uint w nthr -> 0 < loopmax -> 0 < nthr ->
  block_size_and_nthr w loopmax nthr =
    let block_size := (loopmax + nthr - 1) / nthr in
    if 2 ^ w <=? loopmax + nthr - 1 then DivisionByZero
    else if 2 ^ w <=? loopmax + block_size - 1 then Ok (block_size, 0)
    else Ok (block_size, (loopmax + block_size - 1) / block_size).
Proof.
  intros Hl Hn Hl0 Hn0. unfold is_uint in *. cbv zeta.
  assert (Hnz : (nthr =? 0) = false) by (apply Z.eqb_neq; lia).
  unfold block_size_and_nthr, udiv. rewrite usub_uadd, Hnz. cbn [bind].
  destruct (Z.leb_spec (2 ^ w) (loopmax + nthr - 1)) as [Hov|Hok].
  - rewrite wrap_once by lia.
    rewrite (Z.div_small (loopmax + nthr - 1 - 2 ^ w)) by lia. reflexivity.
  - rewrite wrap_small by lia.
    destruct (ceiling_bounds loopmax nthr Hl0 Hn0) as [Hb1 Hb2].
    set (bs := (loopmax + nthr - 1) / nthr) in *.
    assert (Hbz : (bs =? 0) = false) by (apply Z.eqb_neq; lia).
    rewrite usub_uadd, Hbz.
    destruct (Z.leb_spec (2 ^ w) (loopmax + bs - 1)) as [Hov2|Hok2].
    + rewrite wrap_once by lia. rewrite Z.div_small by lia. reflexivity.
    + rewrite wrap_small by lia. reflexivity.
Qed.

(** When more than one thread is left, nothing has wrapped. *)
Lemma several_threads loopmax nthr block_size nthr' :
  is_uint w loopmax -> is_uint w nthr -> 0 < loopmax -> 0 < nthr ->
  block_size_and_nthr w loopmax nthr = Ok (block_size, nthr') ->
  1 < nthr' ->
  block_size = (loopmax + nthr - 1) / nthr /\
  nthr' = (loopmax + block_size - 1) / block_size /\
  loopmax + nthr - 1 < 2 ^ w /\
  loopmax + block_size - 1 < 2 ^ w.
Proof.
  intros Hl Hn Hl0 Hn0 Heq Hgt.
  rewrite block_size_and_nthr_cases in Heq by assumption. cbv zeta in Heq.
  destruct (Z.leb_spec (2 ^ w) (loopmax + nthr - 1)); [discriminate|].
  destruct (Z.leb_spec (2 ^ w) (loopmax + (loopmax + nthr - 1) / nthr - 1)).
  - injection Heq as <- <-. lia.
  - injection Heq as <- <-. repeat split; lia.
Qed.

End Arithmetic.

(** ** The loops *)

Section Loops.

Variable w : Z.

(** A loop whose body appends one event per index runs [n - i] times and
    leaves [i = n]. *)
Lemma for_loop_events (body : Z -> trace -> trace) (e : Z -> event)
  fuel i n tr :
  (forall k t, body k t = t ++ [e k]) ->
  0 <= i <= n -> n < 2 ^ w ->
  (Z.to_nat (n - i) <= fuel)%nat ->
  for_loop w fuel i n body tr
  = Ok (n, tr ++ map e (zseq i (Z.to_nat (n - i)))).
Proof.
  intros Hbody. revert i tr.
  induction fuel as [|fuel IH]; intros i tr Hi Hn Hfuel; simpl;
    destruct (Z.ltb_spec i n) as [Hlt|Hge].
  - lia.
  - replace i with n by lia. rewrite Z.sub_diag. simpl.
    now rewrite app_nil_r.
  - unfold uadd. rewrite wrap_small by lia.
    rewrite IH by lia. rewrite Hbody, <- app_assoc.
    replace (Z.to_nat (n - i)) with (S (Z.to_nat (n - (i + 1)))) by lia.
    reflexivity.
  - replace i with n by lia. rewrite Z.sub_diag. simpl.
    now rewrite app_nil_r.
Qed.

Lemma ranges_app t1 t2 : ranges (t1 ++ t2) = ranges t1 ++ ranges t2.
Proof. apply flat_map_app. Qed.

Lemma ranges_map_proc ds : ranges (map proc ds) = ds.
Proof. induction ds; simpl; [reflexivity | now f_equal]. Qed.

Lemma ranges_map_spawn (f : Z -> spawn_data) l :
  ranges (map (fun i => fftw_thr_spawn i (f i)) l) = map f l.
Proof. induction l; simpl; [reflexivity | now f_equal]. Qed.

Lemma ranges_map_wait l : ranges (map fftw_thr_wait l) = [].
Proof. induction l; simpl; trivial. Qed.

Lemma ranges_compiler_trace loopmax block_size nthr data :
  ranges (compiler_trace loopmax block_size nthr data)
  = blocks loopmax block_size nthr data.
Proof.
  unfold compiler_trace. rewrite !ranges_app, ranges_map_proc. simpl.
  apply app_nil_r.
Qed.

Lemma spawned_app t1 t2 : spawned (t1 ++ t2) = spawned t1 ++ spawned t2.
Proof. apply flat_map_app. Qed.

Lemma run_by_caller_app t1 t2 :
  run_by_caller (t1 ++ t2) = run_by_caller t1 ++ run_by_caller t2.
Proof. apply flat_map_app. Qed.

Lemma spawned_map_spawn (f : Z -> spawn_data) l :
  spawned (map (fun i => fftw_thr_spawn i (f i)) l) = map f l.
Proof. induction l; simpl; [reflexivity | now f_equal]. Qed.

Lemma spawned_map_wait l : spawned (map fftw_thr_wait l) = [].
Proof. induction l; simpl; trivial. Qed.

Lemma run_by_caller_map_spawn (f : Z -> spawn_data) l :
  run_by_caller (map (fun i => fftw_thr_spawn i (f i)) l) = [].
Proof. induction l; simpl; trivial. Qed.

Lemma run_by_caller_map_wait l : run_by_caller (map fftw_thr_wait l) = [].
Proof. induction l; simpl; trivial. Qed.

Lemma spawned_spawning_trace loopmax block_size nthr data :
  spawned (spawning_trace loopmax block_size nthr data)
  = map (fun i => mkspawn_data (i * block_size)
                    (i * block_size + block_size) i data)
        (zseq 0 (Z.to_nat (nthr - 1))).
Proof.
  unfold spawning_trace.
  rewrite !spawned_app, spawned_map_spawn, spawned_map_wait. simpl.
  apply app_nil_r.
Qed.

Lemma run_by_caller_spawning_trace loopmax block_size nthr data :
  run_by_caller (spawning_trace loopmax block_size nthr data)
  = [mkspawn_data ((nthr - 1) * block_size) loopmax (nthr - 1) data].
Proof.
  unfold spawning_trace.
  rewrite !run_by_caller_app, run_by_caller_map_spawn, run_by_caller_map_wait.
  reflexivity.
Qed.

Lemma ranges_spawned_then_caller loopmax block_size nthr data :
  ranges (spawning_trace loopmax block_size nthr data)
  = spawned (spawning_trace loopmax block_size nthr data)
      ++ run_by_caller (spawning_trace loopmax block_size nthr data).
Proof.
  rewrite spawned_spawning_trace, run_by_caller_spawning_trace.
  unfold spawning_trace.
  rewrite !ranges_app, ranges_map_spawn, ranges_map_wait. reflexivity.
Qed.

(** The spawned blocks followed by the caller's block are the blocks of the
    compiler-managed loop: the cut at [loopmax] changes the last one only. *)
Lemma ranges_spawning_trace loopmax block_size nthr data :
  0 < block_size -> 1 <= nthr ->
  (nthr - 1) * block_size < loopmax <= nthr * block_size ->
  ranges (spawning_trace loopmax block_size nthr data)
  = blocks loopmax block_size nthr data.
Proof.
  intros Hb Hn Hl. unfold spawning_trace, blocks.
  rewrite !ranges_app, ranges_map_spawn, ranges_map_wait. simpl.
  replace (Z.to_nat nthr) with (S (Z.to_nat (nthr - 1))) by lia.
  rewrite zseq_snoc, map_app. f_equal.
  - apply map_ext_in. intros i Hi. apply in_zseq in Hi.
    f_equal. nia.
  - simpl. rewrite Z2Nat.id by lia.
    replace (Z.min ((nthr - 1) * block_size + block_size) loopmax)
      with loopmax by nia.
    reflexivity.
Qed.

End Loops.

(** ** [X(spawn_loop)] branch by branch *)

Section Branches.

Variable w : Z.
Variable cfg : config.
Variables loopmax nthr : Z.
Variable data : pointer.

Hypothesis loopmax_uint : is_uint w loopmax.
Hypothesis nthr_uint : is_uint w nthr.
Hypothesis loopmax_pos : 0 < loopmax.
Hypothesis nthr_pos : 0 < nthr.
Hypothesis threads : HAVE_THREADS cfg = true.

(** Past the two assertions. *)
Lemma spawn_loop_asserted :
  spawn_loop w cfg loopmax nthr data =
  '(block_size, nthr) <- block_size_and_nthr w loopmax nthr ;;
  if nthr <=? 1 then Ok (whole_loop loopmax data)
  else if USING_COMPILER_THREADS cfg then
    '(_, tr) <- for_loop w (Z.to_nat nthr) 0 nthr
                  (compiler_threads_body w loopmax block_size data)
                  [THREAD_ON] ;;
    Ok (tr ++ [THREAD_OFF])
  else
    let nthr := usub w nthr 1 in
    '(i, tr) <- for_loop w (Z.to_nat nthr) 0 nthr
                  (spawn_body w block_size data) [THREAD_ON] ;;
    let tr := tr ++ [proc (mkspawn_data (umul w i block_size) loopmax i data)] in
    '(_, tr) <- for_loop w (Z.to_nat nthr) 0 nthr wait_body tr ;;
    Ok (tr ++ [THREAD_OFF]).
Proof.
  unfold spawn_loop. rewrite threads.
  replace (0 <? loopmax) with true by (symmetry; apply Z.ltb_lt; lia).
  replace (0 <? nthr) with true by (symmetry; apply Z.ltb_lt; lia).
  reflexivity.
Qed.

Lemma spawn_loop_division_by_zero :
  2 ^ w <= loopmax + nthr - 1 ->
  spawn_loop w cfg loopmax nthr data = DivisionByZero.
Proof.
  intros Hov. rewrite spawn_loop_asserted.
  rewrite block_size_and_nthr_cases by assumption. cbv zeta.
  now replace (2 ^ w <=? loopmax + nthr - 1) with true
    by (symmetry; apply Z.leb_le; lia).
Qed.

Variables block_size nthr' : Z.
Hypothesis computed :
  block_size_and_nthr w loopmax nthr = Ok (block_size, nthr').

Lemma spawn_loop_one_thread :
  nthr' <= 1 ->
  spawn_loop w cfg loopmax nthr data = Ok (whole_loop loopmax data).
Proof.
  intros Hle. rewrite spawn_loop_asserted, computed. cbn [bind].
  now replace (nthr' <=? 1) with true by (symmetry; apply Z.leb_le; lia).
Qed.

Hypothesis several : 1 < nthr'.

(** What the two loops rely on. *)
Lemma several_threads_bounds :
  1 <= block_size /\ nthr' <= nthr /\ nthr' <= loopmax /\
  (nthr' - 1) * block_size < loopmax <= nthr' * block_size /\
  nthr' * block_size < 2 ^ w.
Proof.
  destruct (several_threads w _ _ _ _ loopmax_uint nthr_uint loopmax_pos
              nthr_pos computed several) as (Hb & Hn & Hs1 & Hs2).
  pose proof (block_partition_bounds loopmax nthr loopmax_pos nthr_pos) as Hp.
  cbv zeta in Hp. rewrite <- Hb in Hp. rewrite <- Hn in Hp.
  lia.
Qed.

Lemma spawn_loop_compiler_threads :
  USING_COMPILER_THREADS cfg = true ->
  spawn_loop w cfg loopmax nthr data
  = Ok (compiler_trace loopmax block_size nthr' data).
Proof.
  intros Hc. destruct several_threads_bounds as (Hb & Hn & Hn' & Hl & Hm).
  rewrite spawn_loop_asserted, computed. cbn [bind].
  replace (nthr' <=? 1) with false by (symmetry; apply Z.leb_gt; lia).
  rewrite Hc.
  rewrite (for_loop_events w _
             (fun i => proc (mkspawn_data (umul w i block_size)
                (if loopmax <? uadd w (umul w i block_size) block_size
                 then loopmax else uadd w (umul w i block_size) block_size)
                i data)));
    [ | reflexivity | lia | unfold is_uint in *; lia | lia ].
  cbn [bind]. unfold compiler_trace, blocks.
  rewrite Z.sub_0_r, <- app_assoc, map_map. do 3 f_equal.
  apply map_ext_in. intros i Hi. apply in_zseq in Hi.
  unfold umul, uadd. rewrite (wrap_small w (i * block_size)) by nia.
  rewrite wrap_small by nia.
  destruct (Z.ltb_spec loopmax (i * block_size + block_size));
    do 2 f_equal; lia.
Qed.

Lemma spawn_loop_spawning_threads :
  USING_COMPILER_THREADS cfg = false ->
  spawn_loop w cfg loopmax nthr data
  = Ok (spawning_trace loopmax block_size nthr' data).
Proof.
  intros Hc. destruct several_threads_bounds as (Hb & Hn & Hn' & Hl & Hm).
  rewrite spawn_loop_asserted, computed. cbn [bind].
  replace (nthr' <=? 1) with false by (symmetry; apply Z.leb_gt; lia).
  rewrite Hc. cbv zeta. unfold usub.
  rewrite (wrap_small w (nthr' - 1)) by (unfold is_uint in *; lia).
  rewrite (for_loop_events w _
             (fun i => fftw_thr_spawn i (mkspawn_data (umul w i block_size)
                (uadd w (umul w i block_size) block_size) i data)));
    [ | reflexivity | lia | unfold is_uint in *; lia | lia ].
  cbn [bind].
  rewrite (for_loop_events w _ fftw_thr_wait);
    [ | reflexivity | lia | unfold is_uint in *; lia | lia ].
  cbn [bind]. unfold spawning_trace.
  rewrite Z.sub_0_r, <- !app_assoc. do 3 f_equal.
  - apply map_ext_in. intros i Hi. apply in_zseq in Hi.
    unfold umul, uadd. rewrite (wrap_small w (i * block_size)) by nia.
    rewrite wrap_small by nia. reflexivity.
  - unfold umul. rewrite wrap_small by nia. reflexivity.
Qed.

End Branches.

(** ** The blocks partition the loop *)

Lemma blocks_chain_from loopmax block_size data m k :
  0 < block_size ->
  (k + Z.of_nat m) * block_size < loopmax
    <= (k + Z.of_nat m + 1) * block_size ->
  chain (k * block_size) k
    (map (fun i => mkspawn_data (i * block_size)
                     (Z.min (i * block_size + block_size) loopmax) i data)
         (zseq k (S m)))
    loopmax.
Proof.
  intros Hb. revert k. induction m as [|m IH]; intros k Hl.
  - simpl. repeat split; lia.
  - change (zseq k (S (S m))) with (k :: zseq (k + 1) (S m)).
    rewrite map_cons. cbn [chain min max thr_num].
    rewrite Nat2Z.inj_succ in Hl.
    replace (Z.min (k * block_size + block_size) loopmax)
      with ((k + 1) * block_size) by nia.
    split; [reflexivity|]. split; [nia|]. split; [reflexivity|].
    apply IH. nia.
Qed.

Lemma blocks_chain loopmax block_size nthr data :
  0 < block_size -> 1 <= nthr ->
  (nthr - 1) * block_size < loopmax <= nthr * block_size ->
  chain 0 0 (blocks loopmax block_size nthr data) loopmax.
Proof.
  intros Hb Hn Hl. unfold blocks.
  replace (Z.to_nat nthr) with (S (Z.to_nat (nthr - 1))) by lia.
  apply (blocks_chain_from loopmax block_size data (Z.to_nat (nthr - 1)) 0 Hb).
  rewrite Z2Nat.id by lia. nia.
Qed.

Lemma whole_loop_chain loopmax data :
  0 < loopmax -> chain 0 0 (ranges (whole_loop loopmax data)) loopmax.
Proof. intros H. simpl. repeat split; lia. Qed.

Lemma critical_path_le ds b :
  0 <= b -> Forall (fun d => size d <= b) ds -> critical_path ds <= b.
Proof.
  intros Hb H. induction H as [|d ds Hd _ IH]; simpl; lia.
Qed.

Lemma blocks_sizes loopmax block_size nthr data :
  Forall (fun d => size d <= block_size)
    (blocks loopmax block_size nthr data).
Proof.
  unfold blocks. apply Forall_forall. intros d Hd.
  apply in_map_iff in Hd. destruct Hd as (i & <- & _).
  unfold size. simpl. lia.
Qed.

(** ** The partition, where the sums of lines 294-295 do not wrap *)

(** When [loopmax + nthr - 1] is representable, every variant of
    [X(spawn_loop)] returns, and the blocks it hands to [proc] partition
    [0 .. loopmax-1]. *)
Theorem spawn_loop_partitions w cfg loopmax nthr data :
  is_uint w loopmax -> is_uint w nthr -> 0 < loopmax -> 0 < nthr ->
  loopmax + nthr - 1 < 2 ^ w ->
  exists tr,
    spawn_loop w cfg loopmax nthr data = Ok tr /\
    partitions loopmax (ranges tr).
Proof.
  intros Hl Hn Hl0 Hn0 Hfit.
  destruct (HAVE_THREADS cfg) eqn:Hth.
  2:{ exists (whole_loop loopmax data). unfold spawn_loop. rewrite Hth.
      split; [reflexivity|]. now apply chain_partitions, whole_loop_chain. }
  pose proof (block_size_and_nthr_cases w loopmax nthr Hl Hn Hl0 Hn0) as Hc.
  cbv zeta in Hc.
  replace (2 ^ w <=? loopmax + nthr - 1) with false in Hc
    by (symmetry; apply Z.leb_gt; lia).
  set (bs := (loopmax + nthr - 1) / nthr) in *.
  assert (exists n, block_size_and_nthr w loopmax nthr = Ok (bs, n))
    as [n Hbn] by (destruct (2 ^ w <=? loopmax + bs - 1); eauto).
  destruct (Z_le_gt_dec n 1) as [Hle|Hgt].
  - exists (whole_loop loopmax data). split.
    + now apply (spawn_loop_one_thread w cfg loopmax nthr data Hl0 Hn0 Hth bs n).
    + now apply chain_partitions, whole_loop_chain.
  - assert (1 < n) as Hlt by lia.
    destruct (several_threads_bounds w loopmax nthr Hl Hn Hl0 Hn0 bs n Hbn Hlt)
      as (Hb & _ & _ & Hlm & _).
    destruct (USING_COMPILER_THREADS cfg) eqn:Hct.
    + exists (compiler_trace loopmax bs n data). split.
      * now apply spawn_loop_compiler_threads.
      * rewrite ranges_compiler_trace.
        apply chain_partitions, blocks_chain; lia.
    + exists (spawning_trace loopmax bs n data). split.
      * now apply spawn_loop_spawning_threads.
      * rewrite ranges_spawning_trace by lia.
        apply chain_partitions, blocks_chain; lia.
Qed.

(** When neither sum wraps, the number of threads is between 1 and
    [min(loopmax, nthr)], and no block is larger than the ceiling of
    [loopmax / nthr]. *)
Theorem spawn_loop_critical_path w cfg loopmax nthr data :
  is_uint w loopmax -> is_uint w nthr -> 0 < loopmax -> 0 < nthr ->
  let ceiling := (loopmax + nthr - 1) / nthr in
  loopmax + nthr - 1 < 2 ^ w ->
  loopmax + ceiling - 1 < 2 ^ w ->
  HAVE_THREADS cfg = true ->
  exists nthr' tr,
    block_size_and_nthr w loopmax nthr = Ok (ceiling, nthr') /\
    1 <= nthr' <= Z.min loopmax nthr /\
    spawn_loop w cfg loopmax nthr data = Ok tr /\
    critical_path (ranges tr) <= ceiling.
Proof.
  intros Hl Hn Hl0 Hn0 bs Hfit1 Hfit2 Hth.
  pose proof (block_size_and_nthr_cases w loopmax nthr Hl Hn Hl0 Hn0) as Hc.
  cbv zeta in Hc. fold bs in Hc.
  replace (2 ^ w <=? loopmax + nthr - 1) with false in Hc
    by (symmetry; apply Z.leb_gt; lia).
  replace (2 ^ w <=? loopmax + bs - 1) with false in Hc
    by (symmetry; apply Z.leb_gt; lia).
  pose proof (block_partition_bounds loopmax nthr Hl0 Hn0) as Hp.
  cbv zeta in Hp. fold bs in Hp.
  set (n := (loopmax + bs - 1) / bs) in *.
  exists n.
  destruct (Z_le_gt_dec n 1) as [Hle|Hgt].
  - exists (whole_loop loopmax data). repeat split; try lia; trivial.
    + now apply (spawn_loop_one_thread w cfg loopmax nthr data Hl0 Hn0 Hth bs n).
    + simpl. unfold size. simpl. assert (n = 1) by lia. nia.
  - assert (1 < n) as Hlt by lia.
    destruct (USING_COMPILER_THREADS cfg) eqn:Hct.
    + exists (compiler_trace loopmax bs n data). repeat split; try lia; trivial.
      * now apply spawn_loop_compiler_threads.
      * rewrite ranges_compiler_trace.
        apply critical_path_le; [lia | apply blocks_sizes].
    + exists (spawning_trace loopmax bs n data). repeat split; try lia; trivial.
      * now apply spawn_loop_spawning_threads.
      * rewrite ranges_spawning_trace by lia.
        apply critical_path_le; [lia | apply blocks_sizes].
Qed.

(** ** The claims *)

(** C1: the blocks of one call partition [0 .. loopmax-1], for every
    [loopmax > 0] and [nthr > 0].  With 32-bit [uint], [loopmax = 2^32 - 1]
    and [nthr = 2], the sum [loopmax + nthr - 1] wraps to 0, the block size
    is 0, and the division of line 295 is by zero: no block is produced.
    [spawn_loop_partitions] above is the statement that holds. *)
Theorem spawn_loop_wrapped_sum_divides_by_zero :
  forall api data,
    spawn_loop 32 (mkconfig true api) 4294967295 2 data = DivisionByZero.
Proof. intros api data. vm_compute. reflexivity. Qed.

(** C2: the number of threads is at least 1 and at most
    [min(loopmax, nthr)], and the largest block has at most
    [ceil(loopmax / nthr)] iterations.  With 32-bit [uint],
    [loopmax = 2^32 - 2] and [nthr = 2], the block size is [2^31 - 1] but the
    second sum wraps: the number of threads computed is 0 and the whole loop
    is one block of [2^32 - 2] iterations.  [spawn_loop_critical_path] above
    is the statement that holds. *)
Theorem spawn_loop_wrapped_sum_single_block :
  block_size_and_nthr 32 4294967294 2 = Ok (2147483647, 0) /\
  (4294967294 + 2 - 1) / 2 = 2147483647 /\
  forall api data,
    spawn_loop 32 (mkconfig true api) 4294967294 2 data
      = Ok [proc (mkspawn_data 0 4294967294 0 data)] /\
    critical_path [mkspawn_data 0 4294967294 0 data] = 4294967294.
Proof.
  split; [vm_compute; reflexivity|]. split; [vm_compute; reflexivity|].
  intros api data. split; vm_compute; reflexivity.
Qed.

(** C3: whenever lines 294-295 leave at most one thread, and in particular
    for [loopmax = 1] with any [nthr] and for [nthr = 1] with any [loopmax],
    [X(spawn_loop)] calls [proc] once, itself, on the whole loop
    [0 .. loopmax-1] with [thr_num = 0]; it spawns no thread and returns. *)
Theorem spawn_loop_single_block w cfg loopmax nthr data :
  is_uint w loopmax -> is_uint w nthr -> 0 < loopmax -> 0 < nthr ->
  (forall block_size nthr',
      block_size_and_nthr w loopmax nthr = Ok (block_size, nthr') ->
      nthr' <= 1 ->
      spawn_loop w cfg loopmax nthr data
        = Ok [proc (mkspawn_data 0 loopmax 0 data)]) /\
  (loopmax = 1 ->
      spawn_loop w cfg loopmax nthr data
        = Ok [proc (mkspawn_data 0 loopmax 0 data)]) /\
  (nthr = 1 ->
      spawn_loop w cfg loopmax nthr data
        = Ok [proc (mkspawn_data 0 loopmax 0 data)]).
Proof.
  intros Hl Hn Hl0 Hn0.
  destruct (HAVE_THREADS cfg) eqn:Hth.
  2:{ unfold spawn_loop. rewrite Hth. repeat split; reflexivity. }
  assert (Hone : forall block_size nthr',
      block_size_and_nthr w loopmax nthr = Ok (block_size, nthr') ->
      nthr' <= 1 ->
      spawn_loop w cfg loopmax nthr data
        = Ok [proc (mkspawn_data 0 loopmax 0 data)]).
  { intros bs n Hbn Hle.
    now apply (spawn_loop_one_thread w cfg loopmax nthr data Hl0 Hn0 Hth bs n). }
  pose proof (block_size_and_nthr_cases w loopmax nthr Hl Hn Hl0 Hn0) as Hc.
  cbv zeta in Hc. unfold is_uint in *.
  split; [exact Hone|]. split; intros ->.
  - replace (1 + nthr - 1) with nthr in Hc by lia.
    rewrite Z.div_same in Hc by lia.
    replace (2 ^ w <=? nthr) with false in Hc
      by (symmetry; apply Z.leb_gt; lia).
    replace (2 ^ w <=? 1 + 1 - 1) with false in Hc
      by (symmetry; apply Z.leb_gt; lia).
    apply (Hone _ _ Hc). change ((1 + 1 - 1) / 1) with 1. lia.
  - replace (loopmax + 1 - 1) with loopmax in Hc by lia.
    rewrite Z.div_1_r in Hc.
    replace (2 ^ w <=? loopmax) with false in Hc
      by (symmetry; apply Z.leb_gt; lia).
    destruct (2 ^ w <=? loopmax + loopmax - 1).
    + apply (Hone _ _ Hc). lia.
    + apply (Hone _ _ Hc).
      assert ((loopmax + loopmax - 1) / loopmax < 2); [|lia].
      apply Z.div_lt_upper_bound; lia.
Qed.

Lemma spawn_loop_single_block_witness :
  (is_uint 32 1 /\ is_uint 32 8 /\ 0 < 1 /\ 0 < 8) /\
  spawn_loop 32 (mkconfig true (Some POSIX)) 1 8 0
    = Ok [proc (mkspawn_data 0 1 0 0)].
Proof.
  assert (H : is_uint 32 1 /\ is_uint 32 8 /\ 0 < 1 /\ 0 < 8)
    by (unfold is_uint; simpl; lia).
  split; [exact H|].
  destruct H as (H1 & H2 & H3 & H4).
  exact (proj1 (proj2 (spawn_loop_single_block 32 (mkconfig true (Some POSIX))
                         1 8 0 H1 H2 H3 H4)) eq_refl).
Defined.

(** C4: for [loopmax = 5] and [nthr = 4] the block size is 2 and the number
    of threads 3, and the threaded variants of [X(spawn_loop)] hand out the
    three blocks [0,2), [2,4), [4,5), numbered 0, 1, 2.  This holds for every
    [uint] of four bits or more, which can hold [5 + 4 - 1]. *)
Theorem spawn_loop_5_4 w cfg data :
  4 <= w -> HAVE_THREADS cfg = true ->
  block_size_and_nthr w 5 4 = Ok (2, 3) /\
  result_map outline (spawn_loop w cfg 5 4 data)
    = Ok [(0, 2, 0); (2, 4, 1); (4, 5, 2)].
Proof.
  intros Hw Hth.
  assert (16 <= 2 ^ w) as Hpow
    by (change 16 with (2 ^ 4); apply Z.pow_le_mono_r; lia).
  assert (is_uint w 5) as H5 by (unfold is_uint; lia).
  assert (is_uint w 4) as H4 by (unfold is_uint; lia).
  pose proof (block_size_and_nthr_cases w 5 4 H5 H4 ltac:(lia) ltac:(lia)) as Hc.
  cbv zeta in Hc.
  change ((5 + 4 - 1) / 4) with 2 in Hc.
  change ((5 + 2 - 1) / 2) with 3 in Hc.
  replace (2 ^ w <=? 5 + 4 - 1) with false in Hc
    by (symmetry; apply Z.leb_gt; lia).
  replace (2 ^ w <=? 5 + 2 - 1) with false in Hc
    by (symmetry; apply Z.leb_gt; lia).
  split; [exact Hc|].
  destruct (USING_COMPILER_THREADS cfg) eqn:Hct.
  - rewrite (spawn_loop_compiler_threads w cfg 5 4 data H5 H4 ltac:(lia)
               ltac:(lia) Hth 2 3 Hc ltac:(lia) Hct).
    reflexivity.
  - rewrite (spawn_loop_spawning_threads w cfg 5 4 data H5 H4 ltac:(lia)
               ltac:(lia) Hth 2 3 Hc ltac:(lia) Hct).
    reflexivity.
Qed.

Lemma spawn_loop_5_4_witness :
  (4 <= 32 /\ HAVE_THREADS (mkconfig true (Some POSIX)) = true) /\
  block_size_and_nthr 32 5 4 = Ok (2, 3) /\
  result_map outline (spawn_loop 32 (mkconfig true (Some POSIX)) 5 4 0)
    = Ok [(0, 2, 0); (2, 4, 1); (4, 5, 2)].
Proof.
  split; [split; [lia | reflexivity]|].
  apply (spawn_loop_5_4 32 (mkconfig true (Some POSIX)) 0); [lia | reflexivity].
Defined.

(** C5: whenever more than one thread is left and threads are spawned
    explicitly, [X(spawn_loop)] spawns exactly [nthr - 1] threads, one for
    each of the first [nthr - 1] blocks in the order of their numbers, and
    runs [proc] on the last block, which ends at [loopmax], in the calling
    thread, with no spawn for it; then it waits for the threads. *)
Theorem spawn_loop_spawns_all_but_last w cfg loopmax nthr data
  block_size nthr' :
  HAVE_THREADS cfg = true -> USING_COMPILER_THREADS cfg = false ->
  is_uint w loopmax -> is_uint w nthr -> 0 < loopmax -> 0 < nthr ->
  block_size_and_nthr w loopmax nthr = Ok (block_size, nthr') ->
  1 < nthr' ->
  exists tr,
    spawn_loop w cfg loopmax nthr data = Ok tr /\
    tr = [THREAD_ON]
           ++ map (fun i => fftw_thr_spawn i
                    (mkspawn_data (i * block_size) ((i + 1) * block_size)
                       i data))
                (zseq 0 (Z.to_nat (nthr' - 1)))
           ++ [proc (mkspawn_data ((nthr' - 1) * block_size) loopmax
                       (nthr' - 1) data)]
           ++ map fftw_thr_wait (zseq 0 (Z.to_nat (nthr' - 1)))
           ++ [THREAD_OFF] /\
    Z.of_nat (length (spawned tr)) = nthr' - 1 /\
    map thr_num (spawned tr) = zseq 0 (Z.to_nat (nthr' - 1)) /\
    run_by_caller tr
      = [mkspawn_data ((nthr' - 1) * block_size) loopmax (nthr' - 1) data] /\
    ranges tr = spawned tr ++ run_by_caller tr.
Proof.
  intros Hth Hct Hl Hn Hl0 Hn0 Hbn Hlt.
  exists (spawning_trace loopmax block_size nthr' data).
  split; [now apply spawn_loop_spawning_threads|].
  assert (Heq : spawning_trace loopmax block_size nthr' data
    = [THREAD_ON]
           ++ map (fun i => fftw_thr_spawn i
                    (mkspawn_data (i * block_size) ((i + 1) * block_size)
                       i data))
                (zseq 0 (Z.to_nat (nthr' - 1)))
           ++ [proc (mkspawn_data ((nthr' - 1) * block_size) loopmax
                       (nthr' - 1) data)]
           ++ map fftw_thr_wait (zseq 0 (Z.to_nat (nthr' - 1)))
           ++ [THREAD_OFF]).
  { unfold spawning_trace. do 2 f_equal. apply map_ext. intros i.
    do 2 f_equal. lia. }
  split; [exact Heq|].
  rewrite ranges_spawned_then_caller.
  rewrite spawned_spawning_trace, run_by_caller_spawning_trace.
  rewrite length_map, zseq_length, map_map. cbn [thr_num]. rewrite map_id.
  repeat split. lia.
Qed.

Lemma spawn_loop_spawns_all_but_last_witness :
  (HAVE_THREADS (mkconfig true (Some POSIX)) = true /\
   USING_COMPILER_THREADS (mkconfig true (Some POSIX)) = false /\
   is_uint 32 5 /\ is_uint 32 4 /\ 0 < 5 /\ 0 < 4 /\
   block_size_and_nthr 32 5 4 = Ok (2, 3) /\ 1 < 3) /\
  exists tr,
    spawn_loop 32 (mkconfig true (Some POSIX)) 5 4 0 = Ok tr /\
    Z.of_nat (length (spawned tr)) = 3 - 1 /\
    run_by_caller tr = [mkspawn_data ((3 - 1) * 2) 5 (3 - 1) 0].
Proof.
  assert (H : HAVE_THREADS (mkconfig true (Some POSIX)) = true /\
   USING_COMPILER_THREADS (mkconfig true (Some POSIX)) = false /\
   is_uint 32 5 /\ is_uint 32 4 /\ 0 < 5 /\ 0 < 4 /\
   block_size_and_nthr 32 5 4 = Ok (2, 3) /\ 1 < 3).
  { unfold is_uint. repeat split; try reflexivity; simpl; lia. }
  split; [exact H|].
  destruct H as (H1 & H2 & H3 & H4 & H5 & H6 & H7 & H8).
  destruct (spawn_loop_spawns_all_but_last 32 (mkconfig true (Some POSIX))
              5 4 0 2 3 H1 H2 H3 H4 H5 H6 H7 H8)
    as (tr & Htr & _ & Hlen & _ & Hrun & _).
  exists tr. repeat split; assumption.
Defined.

(** ** Initialisation *)

Lemma posix_attributes_error env g err g' :
  posix_attributes env g = (Some err, g') -> err <> 0.
Proof.
  unfold posix_attributes.
  destruct (pthread_attr_getdetachstate env) as [e1 a1].
  destruct (pthread_attr_getscope env) as [e2 a2].
  repeat match goal with
         | |- context [if negb (?x =? 0) then _ else _] =>
           destruct (Z.eqb_spec x 0); cbn [negb]
         | |- (Some _, _) = (Some _, _) -> _ =>
           let H := fresh in intros H; injection H as <- _; assumption
         | |- (None, _) = (Some _, _) -> _ => discriminate
         | |- context [if ?b || ?c then _ else _] =>
           destruct (b || c)
         end.
Qed.

(** C6: without [HAVE_THREADS], [X(threads_init)] returns a status that is
    not zero, and it is -31416 ("no threads") unless the POSIX attributes were
    set up and failed first; and every call of [X(spawn_loop)], whatever
    [nthr], calls [proc] once on the whole loop [0 .. loopmax-1] with
    [thr_num = 0]. *)
Theorem no_threads_single_block w cfg env g loopmax nthr data :
  HAVE_THREADS cfg = false ->
  fst (threads_init cfg env g) <> 0 /\
  (USING cfg <> Some POSIX -> fst (threads_init cfg env g) = -31416) /\
  spawn_loop w cfg loopmax nthr data
    = Ok [proc (mkspawn_data 0 loopmax 0 data)].
Proof.
  intros Hth. unfold threads_init, spawn_loop. rewrite Hth.
  split; [|split; [|reflexivity]].
  - destruct (USING cfg) as [[]|]; simpl; try discriminate.
    destruct (posix_attributes env g) as [[err|] g'] eqn:Hp; simpl.
    + eapply posix_attributes_error; eassumption.
    + discriminate.
  - intros Hnp. destruct (USING cfg) as [[]|]; simpl; try reflexivity.
    now contradiction Hnp.
Qed.

Lemma no_threads_single_block_witness :
  HAVE_THREADS (mkconfig false None) = false /\
  fst (threads_init (mkconfig false None)
         (mkenvironment 0 (0, 0) 0 (0, 0) 0 0 false 0 0)
         (mkglobals false false false)) = -31416 /\
  spawn_loop 32 (mkconfig false None) 100 8 0
    = Ok [proc (mkspawn_data 0 100 0 0)].
Proof.
  split; [reflexivity|].
  destruct (no_threads_single_block 32 (mkconfig false None)
              (mkenvironment 0 (0, 0) 0 (0, 0) 0 0 false 0 0)
              (mkglobals false false false) 100 8 0 eq_refl)
    as (_ & Hst & Hsp).
  split; [apply Hst; discriminate | exact Hsp].
Defined.

(** C7, as the spec has it: a call with [loopmax == 0] or [nthr == 0] is
    stopped by an assertion in every variant of [X(spawn_loop)].  The variant
    without threads asserts nothing and does not read [nthr]: with
    [nthr = 0] it runs the whole loop. *)
Lemma spawn_loop_without_threads_ignores_nthr :
  spawn_loop 32 (mkconfig false None) 5 0 0
    = Ok [proc (mkspawn_data 0 5 0 0)] /\
  spawn_loop 32 (mkconfig false None) 5 0 0 <> AssertionFailed.
Proof. split; [reflexivity | discriminate]. Qed.

(** C7, amended: in the variants with [HAVE_THREADS], a call with
    [loopmax == 0] or [nthr == 0] stops at the assertions of lines 286-287,
    before any block is computed; the variant without threads has no
    assertion and ignores [nthr], so that [nthr == 0] with [loopmax > 0]
    runs [proc] once on the whole loop. *)
Theorem spawn_loop_asserts_with_threads w cfg loopmax nthr data :
  is_uint w loopmax -> is_uint w nthr ->
  (HAVE_THREADS cfg = true -> loopmax = 0 \/ nthr = 0 ->
     spawn_loop w cfg loopmax nthr data = AssertionFailed) /\
  (HAVE_THREADS cfg = false -> 0 < loopmax -> nthr = 0 ->
     spawn_loop w cfg loopmax nthr data
       = Ok [proc (mkspawn_data 0 loopmax 0 data)]).
Proof.
  intros Hl Hn. unfold spawn_loop. split; intros ->.
  - intros [-> | ->]; [reflexivity|].
    destruct (0 <? loopmax); reflexivity.
  - reflexivity.
Qed.

Lemma spawn_loop_asserts_with_threads_witness :
  (is_uint 32 0 /\ is_uint 32 4) /\
  spawn_loop 32 (mkconfig true (Some POSIX)) 0 4 0 = AssertionFailed.
Proof.
  assert (H : is_uint 32 0 /\ is_uint 32 4) by (unfold is_uint; simpl; lia).
  split; [exact H|]. destruct H as [H0 H4].
  exact (proj1 (spawn_loop_asserts_with_threads 32
                  (mkconfig true (Some POSIX)) 0 4 0 H0 H4)
           eq_refl (or_introl eq_refl)).
Defined.

(** ** Independence of the blocks from [data] *)

Lemma outline_app t1 t2 : outline (t1 ++ t2) = outline t1 ++ outline t2.
Proof. unfold outline. now rewrite ranges_app, map_app. Qed.

(** Two loops whose bodies add blocks of the same bounds produce traces of
    the same outline, and stop alike. *)
Lemma for_loop_outline w (body body' : Z -> trace -> trace) fuel i n s s' :
  (forall k t t', outline t = outline t' ->
                  outline (body k t) = outline (body' k t')) ->
  outline s = outline s' ->
  result_map (fun r => (fst r, outline (snd r))) (for_loop w fuel i n body s)
  = result_map (fun r => (fst r, outline (snd r)))
      (for_loop w fuel i n body' s').
Proof.
  intros Hbody. revert i s s'.
  induction fuel as [|fuel IH]; intros i s s' Hs; simpl;
    destruct (i <? n); simpl; try reflexivity.
  - now rewrite Hs.
  - apply IH. now apply Hbody.
  - now rewrite Hs.
Qed.

(** C8: two calls of [X(spawn_loop)] with the same [loopmax] and [nthr]
    compute the same block size and number of threads and hand out the same
    sequence of blocks [(min, max, thr_num)], whatever the [data] pointers. *)
Theorem spawn_loop_deterministic w cfg loopmax1 nthr1 data1
  loopmax2 nthr2 data2 :
  loopmax1 = loopmax2 -> nthr1 = nthr2 ->
  block_size_and_nthr w loopmax1 nthr1 = block_size_and_nthr w loopmax2 nthr2
  /\ result_map outline (spawn_loop w cfg loopmax1 nthr1 data1)
     = result_map outline (spawn_loop w cfg loopmax2 nthr2 data2).
Proof.
  intros <- <-. split; [reflexivity|].
  unfold spawn_loop.
  destruct (HAVE_THREADS cfg); [|reflexivity].
  destruct (A (0 <? loopmax1)); try reflexivity.
  destruct (A (0 <? nthr1)); try reflexivity.
  destruct (block_size_and_nthr w loopmax1 nthr1) as [[bs n]| | |];
    try reflexivity.
  cbn [bind]. destruct (n <=? 1); [reflexivity|].
  destruct (USING_COMPILER_THREADS cfg).
  - pose proof (for_loop_outline w
                  (compiler_threads_body w loopmax1 bs data1)
                  (compiler_threads_body w loopmax1 bs data2)
                  (Z.to_nat n) 0 n [THREAD_ON] [THREAD_ON]) as H.
    destruct (for_loop w (Z.to_nat n) 0 n
                (compiler_threads_body w loopmax1 bs data1) [THREAD_ON])
      as [[i1 t1]| | |];
    destruct (for_loop w (Z.to_nat n) 0 n
                (compiler_threads_body w loopmax1 bs data2) [THREAD_ON])
      as [[i2 t2]| | |];
    (lapply H;
     [ clear H; intros H; specialize (H eq_refl); try discriminate H;
       try reflexivity
     | intros k t t' Ht; unfold compiler_threads_body;
       rewrite !outline_app, Ht; reflexivity ]).
    simpl in *. injection H as _ H.
    unfold result_map. cbn [bind]. now rewrite !outline_app, H.
  - cbv zeta.
    pose proof (for_loop_outline w
                  (spawn_body w bs data1) (spawn_body w bs data2)
                  (Z.to_nat (usub w n 1)) 0 (usub w n 1)
                  [THREAD_ON] [THREAD_ON]) as H.
    destruct (for_loop w (Z.to_nat (usub w n 1)) 0 (usub w n 1)
                (spawn_body w bs data1) [THREAD_ON])
      as [[i1 t1]| | |];
    destruct (for_loop w (Z.to_nat (usub w n 1)) 0 (usub w n 1)
                (spawn_body w bs data2) [THREAD_ON])
      as [[i2 t2]| | |];
    (lapply H;
     [ clear H; intros H; specialize (H eq_refl); try discriminate H;
       try reflexivity
     | intros k t t' Ht; unfold spawn_body;
       rewrite !outline_app, Ht; reflexivity ]).
    simpl in H. injection H as <- H. cbn [bind].
    pose proof (for_loop_outline w wait_body wait_body
                  (Z.to_nat (usub w n 1)) 0 (usub w n 1)
                  (t1 ++ [proc (mkspawn_data (umul w i1 bs) loopmax1 i1 data1)])
                  (t2 ++ [proc (mkspawn_data (umul w i1 bs) loopmax1 i1 data2)]))
      as H'.
    destruct (for_loop w (Z.to_nat (usub w n 1)) 0 (usub w n 1) wait_body
                (t1 ++ _)) as [[j1 u1]| | |];
    destruct (for_loop w (Z.to_nat (usub w n 1)) 0 (usub w n 1) wait_body
                (t2 ++ _)) as [[j2 u2]| | |];
    (lapply H';
     [ clear H'; intros H';
       lapply H';
       [ clear H'; intros H'; try discriminate H'; try reflexivity
       | rewrite !outline_app, H; reflexivity ]
     | intros k t t' Ht; unfold wait_body;
       rewrite !outline_app, Ht; reflexivity ]).
    simpl in H'. injection H' as _ H'.
    unfold result_map. cbn [bind]. now rewrite !outline_app, H'.
Qed.

Lemma spawn_loop_deterministic_witness :
  (5 = 5 /\ 4 = 4) /\
  block_size_and_nthr 32 5 4 = block_size_and_nthr 32 5 4 /\
  result_map outline (spawn_loop 32 (mkconfig true (Some POSIX)) 5 4 1000)
  = result_map outline (spawn_loop 32 (mkconfig true (Some POSIX)) 5 4 2000).
Proof.
  split; [split; reflexivity|].
  exact (spawn_loop_deterministic 32 (mkconfig true (Some POSIX))
           5 4 1000 5 4 2000 eq_refl eq_refl).
Defined.

(** ** The unclamped blocks *)

(** C9: the blocks given to spawned threads are written as
    [[i * block_size, i * block_size + block_size)] with no cut at [loopmax],
    and stay inside the loop all the same: for the block size and number of
    threads computed at lines 294-295, every [i < nthr - 1] has
    [(i + 1) * block_size <= loopmax], and the last block, from
    [(nthr - 1) * block_size] to [loopmax], is not empty.  On the path that
    spawns threads ([nthr > 1]) the two numbers are the ceilings
    [ceil(loopmax / nthr)] and [ceil(loopmax / block_size)] and none of the
    [uint] operations of lines 339-349 wraps. *)
Theorem unclamped_blocks_in_bounds w loopmax nthr block_size nthr' :
  is_uint w loopmax -> is_uint w nthr -> 0 < loopmax -> 0 < nthr ->
  block_size_and_nthr w loopmax nthr = Ok (block_size, nthr') ->
  (forall i, 0 <= i < nthr' - 1 -> (i + 1) * block_size <= loopmax) /\
  (nthr' - 1) * block_size < loopmax /\
  (1 < nthr' ->
     block_size = (loopmax + nthr - 1) / nthr /\
     nthr' = (loopmax + block_size - 1) / block_size /\
     usub w nthr' 1 = nthr' - 1 /\
     (forall i, 0 <= i < nthr' - 1 ->
        umul w i block_size = i * block_size /\
        uadd w (umul w i block_size) block_size = (i + 1) * block_size) /\
     umul w (nthr' - 1) block_size = (nthr' - 1) * block_size).
Proof.
  intros Hl Hn Hl0 Hn0 Hbn.
  pose proof (block_size_and_nthr_cases w loopmax nthr Hl Hn Hl0 Hn0) as Hc.
  pose proof (block_partition_bounds loopmax nthr Hl0 Hn0) as Hp.
  cbv zeta in Hc, Hp. rewrite Hbn in Hc.
  destruct (2 ^ w <=? loopmax + nthr - 1); [discriminate|].
  destruct (Z.leb_spec (2 ^ w) (loopmax + (loopmax + nthr - 1) / nthr - 1))
    as [Hov|Hfit]; injection Hc as -> ->.
  - split; [intros i Hi; lia|]. split; [nia|]. intros Hlt; lia.
  - set (bs := (loopmax + nthr - 1) / nthr) in *.
    set (n := (loopmax + bs - 1) / bs) in *.
    split; [intros i Hi; nia|]. split; [lia|]. intros Hlt.
    split; [reflexivity|]. split; [reflexivity|].
    unfold is_uint in *.
    split; [unfold usub; apply wrap_small; lia|].
    split.
    + intros i Hi. unfold umul, uadd.
      rewrite (wrap_small w (i * bs)) by nia.
      rewrite wrap_small by nia. split; [reflexivity | lia].
    + unfold umul. apply wrap_small. nia.
Qed.

Lemma unclamped_blocks_in_bounds_witness :
  (is_uint 32 5 /\ is_uint 32 4 /\ 0 < 5 /\ 0 < 4 /\
   block_size_and_nthr 32 5 4 = Ok (2, 3)) /\
  (forall i, 0 <= i < 3 - 1 -> (i + 1) * 2 <= 5) /\
  (3 - 1) * 2 < 5.
Proof.
  assert (H : is_uint 32 5 /\ is_uint 32 4 /\ 0 < 5 /\ 0 < 4 /\
              block_size_and_nthr 32 5 4 = Ok (2, 3)).
  { unfold is_uint. repeat split; try reflexivity; simpl; lia. }
  split; [exact H|]. destruct H as (H1 & H2 & H3 & H4 & H5).
  destruct (unclamped_blocks_in_bounds 32 5 4 2 3 H1 H2 H3 H4 H5)
    as (Hi & Hlast & _).
  split; assumption.
Defined.

(** ** The two threaded variants *)

(** C10: the loop handed to the compiler, which cuts every block at
    [loopmax], and the loop that spawns threads, which cuts none and ends the
    last block at [loopmax], hand out the same sequence of blocks, for every
    [loopmax > 0] and [nthr > 0]; the two calls also stop alike where the
    block size is zero.  Both produce the blocks whenever
    [loopmax + nthr - 1] is representable. *)
Theorem compiler_and_spawning_variants_agree w cfgc cfgs loopmax nthr data :
  HAVE_THREADS cfgc = true -> USING_COMPILER_THREADS cfgc = true ->
  HAVE_THREADS cfgs = true -> USING_COMPILER_THREADS cfgs = false ->
  is_uint w loopmax -> is_uint w nthr -> 0 < loopmax -> 0 < nthr ->
  result_map ranges (spawn_loop w cfgc loopmax nthr data)
    = result_map ranges (spawn_loop w cfgs loopmax nthr data) /\
  (loopmax + nthr - 1 < 2 ^ w ->
   exists ds,
     result_map ranges (spawn_loop w cfgc loopmax nthr data) = Ok ds /\
     result_map ranges (spawn_loop w cfgs loopmax nthr data) = Ok ds /\
     ds <> []).
Proof.
  intros Htc Hc Hts Hs Hl Hn Hl0 Hn0.
  assert (Heq : result_map ranges (spawn_loop w cfgc loopmax nthr data)
                = result_map ranges (spawn_loop w cfgs loopmax nthr data)).
  { destruct (block_size_and_nthr w loopmax nthr) as [[bs n]| | |] eqn:Hbn.
    - destruct (Z_le_gt_dec n 1) as [Hle|Hgt].
      + rewrite (spawn_loop_one_thread w cfgc loopmax nthr data Hl0 Hn0 Htc
                   bs n Hbn Hle).
        rewrite (spawn_loop_one_thread w cfgs loopmax nthr data Hl0 Hn0 Hts
                   bs n Hbn Hle).
        reflexivity.
      + assert (1 < n) as Hlt by lia.
        destruct (several_threads_bounds w loopmax nthr Hl Hn Hl0 Hn0 bs n
                    Hbn Hlt) as (Hb & _ & _ & Hlm & _).
        rewrite (spawn_loop_compiler_threads w cfgc loopmax nthr data Hl Hn
                   Hl0 Hn0 Htc bs n Hbn Hlt Hc).
        rewrite (spawn_loop_spawning_threads w cfgs loopmax nthr data Hl Hn
                   Hl0 Hn0 Hts bs n Hbn Hlt Hs).
        unfold result_map. cbn [bind].
        rewrite ranges_compiler_trace, ranges_spawning_trace by lia.
        reflexivity.
    - rewrite !spawn_loop_asserted, Hbn by assumption. reflexivity.
    - rewrite !spawn_loop_asserted, Hbn by assumption. reflexivity.
    - rewrite !spawn_loop_asserted, Hbn by assumption. reflexivity. }
  split; [exact Heq|].
  intros Hfit.
  destruct (spawn_loop_partitions w cfgc loopmax nthr data Hl Hn Hl0 Hn0 Hfit)
    as (tr & Htr & Hpart).
  exists (ranges tr). rewrite <- Heq, Htr.
  split; [reflexivity|]. split; [reflexivity|].
  intros Hnil. rewrite Hnil in Hpart.
  destruct (proj2 (union_is_loop _ _ Hpart 0) ltac:(lia)) as (d & [] & _).
Qed.

Lemma compiler_and_spawning_variants_agree_witness :
  (HAVE_THREADS (mkconfig true (Some OPENMP)) = true /\
   USING_COMPILER_THREADS (mkconfig true (Some OPENMP)) = true /\
   HAVE_THREADS (mkconfig true (Some POSIX)) = true /\
   USING_COMPILER_THREADS (mkconfig true (Some POSIX)) = false /\
   is_uint 32 5 /\ is_uint 32 4 /\ 0 < 5 /\ 0 < 4) /\
  result_map ranges (spawn_loop 32 (mkconfig true (Some OPENMP)) 5 4 0)
    = result_map ranges (spawn_loop 32 (mkconfig true (Some POSIX)) 5 4 0).
Proof.
  assert (H : is_uint 32 5 /\ is_uint 32 4 /\ 0 < 5 /\ 0 < 4)
    by (unfold is_uint; simpl; lia).
  split; [repeat split; try reflexivity; apply H|].
  destruct H as (H1 & H2 & H3 & H4).
  exact (proj1 (compiler_and_spawning_variants_agree 32
                  (mkconfig true (Some OPENMP)) (mkconfig true (Some POSIX))
                  5 4 0 eq_refl eq_refl eq_refl eq_refl H1 H2 H3 H4)).
Defined.

(** ** Every call that returns *)

(** The shape of the effects of a call that returns, in the variants with
    threads. *)
Lemma spawn_loop_returned w cfg loopmax nthr data tr :
  is_uint w loopmax -> is_uint w nthr ->
  HAVE_THREADS cfg = true ->
  spawn_loop w cfg loopmax nthr data = Ok tr ->
  0 < loopmax /\ 0 < nthr /\ loopmax + nthr - 1 < 2 ^ w /\
  exists block_size nthr',
    block_size_and_nthr w loopmax nthr = Ok (block_size, nthr') /\
    block_size = (loopmax + nthr - 1) / nthr /\
    (nthr' <= 1 /\ tr = whole_loop loopmax data \/
     1 < nthr' /\ USING_COMPILER_THREADS cfg = true /\
       tr = compiler_trace loopmax block_size nthr' data \/
     1 < nthr' /\ USING_COMPILER_THREADS cfg = false /\
       tr = spawning_trace loopmax block_size nthr' data).
Proof.
  intros Hl Hn Hth Hret.
  assert (0 < loopmax) as Hl0.
  { destruct (Z.ltb_spec 0 loopmax) as [|Hle]; trivial.
    unfold spawn_loop in Hret. rewrite Hth in Hret.
    replace (0 <? loopmax) with false in Hret
      by (symmetry; apply Z.ltb_ge; lia).
    discriminate. }
  assert (0 < nthr) as Hn0.
  { destruct (Z.ltb_spec 0 nthr) as [|Hle]; trivial.
    unfold spawn_loop in Hret. rewrite Hth in Hret.
    replace (0 <? loopmax) with true in Hret
      by (symmetry; apply Z.ltb_lt; lia).
    replace (0 <? nthr) with false in Hret
      by (symmetry; apply Z.ltb_ge; lia).
    discriminate. }
  split; [exact Hl0|]. split; [exact Hn0|].
  destruct (Z_lt_le_dec (loopmax + nthr - 1) (2 ^ w)) as [Hfit|Hov].
  2:{ rewrite (spawn_loop_division_by_zero w cfg loopmax nthr data Hl Hn
                 Hl0 Hn0 Hth Hov) in Hret. discriminate. }
  split; [exact Hfit|].
  pose proof (block_size_and_nthr_cases w loopmax nthr Hl Hn Hl0 Hn0) as Hc.
  cbv zeta in Hc.
  replace (2 ^ w <=? loopmax + nthr - 1) with false in Hc
    by (symmetry; apply Z.leb_gt; lia).
  set (bs := (loopmax + nthr - 1) / nthr) in *.
  assert (exists n, block_size_and_nthr w loopmax nthr = Ok (bs, n))
    as [n Hbn] by (destruct (2 ^ w <=? loopmax + bs - 1); eauto).
  exists bs, n. split; [exact Hbn|]. split; [reflexivity|].
  destruct (Z_le_gt_dec n 1) as [Hle|Hgt].
  - left. split; [exact Hle|].
    rewrite (spawn_loop_one_thread w cfg loopmax nthr data Hl0 Hn0 Hth bs n
               Hbn Hle) in Hret.
    now injection Hret as <-.
  - assert (1 < n) as Hlt by lia. right.
    destruct (USING_COMPILER_THREADS cfg) eqn:Hct; [left | right];
      (split; [exact Hlt|]); (split; [reflexivity|]).
    + rewrite (spawn_loop_compiler_threads w cfg loopmax nthr data Hl Hn
                 Hl0 Hn0 Hth bs n Hbn Hlt Hct) in Hret.
      now injection Hret as <-.
    + rewrite (spawn_loop_spawning_threads w cfg loopmax nthr data Hl Hn
                 Hl0 Hn0 Hth bs n Hbn Hlt Hct) in Hret.
      now injection Hret as <-.
Qed.

(** The blocks of a call that returns are consecutive and none is empty. *)
Lemma spawn_loop_returned_chain w cfg loopmax nthr data tr :
  is_uint w loopmax -> is_uint w nthr -> 0 < loopmax ->
  spawn_loop w cfg loopmax nthr data = Ok tr ->
  chain 0 0 (ranges tr) loopmax.
Proof.
  intros Hl Hn Hl0 Hret.
  destruct (HAVE_THREADS cfg) eqn:Hth.
  2:{ unfold spawn_loop in Hret. rewrite Hth in Hret.
      injection Hret as <-. now apply whole_loop_chain. }
  destruct (spawn_loop_returned w cfg loopmax nthr data tr Hl Hn Hth Hret)
    as (_ & Hn0 & Hfit & bs & n & Hbn & Hbs & Hshape).
  destruct Hshape as [[Hle ->] | [(Hlt & Hct & ->) | (Hlt & Hct & ->)]].
  - now apply whole_loop_chain.
  - destruct (several_threads_bounds w loopmax nthr Hl Hn Hl0 Hn0 bs n Hbn Hlt)
      as (Hb & _ & _ & Hlm & _).
    rewrite ranges_compiler_trace. apply blocks_chain; lia.
  - destruct (several_threads_bounds w loopmax nthr Hl Hn Hl0 Hn0 bs n Hbn Hlt)
      as (Hb & _ & _ & Hlm & _).
    rewrite ranges_spawning_trace by lia. apply blocks_chain; lia.
Qed.

Lemma chain_total_size lo k ds hi :
  chain lo k ds hi -> total_size ds = hi - lo.
Proof.
  revert lo k. induction ds as [|d ds IH]; simpl; intros lo k H.
  - lia.
  - destruct H as (Hmin & _ & _ & Hrest).
    rewrite (IH _ _ Hrest). unfold size. lia.
Qed.

Lemma chain_nonempty lo k ds hi :
  chain lo k ds hi -> Forall (fun d => min d < max d) ds.
Proof.
  revert lo k. induction ds as [|d ds IH]; simpl; intros lo k H.
  - constructor.
  - destruct H as (Hmin & Hlt & _ & Hrest).
    constructor; [lia | eapply IH; eassumption].
Qed.

Lemma chain_numbered lo k ds hi :
  chain lo k ds hi -> map thr_num ds = zseq k (length ds).
Proof.
  revert lo k. induction ds as [|d ds IH]; simpl; intros lo k H.
  - reflexivity.
  - destruct H as (_ & _ & Hk & Hrest).
    now rewrite Hk, (IH _ _ Hrest).
Qed.

(** X1: in the variants with threads and for [loopmax > 0], [nthr > 0], a
    call of [X(spawn_loop)] divides by zero exactly when [loopmax + nthr - 1]
    is not representable in [uint], and returns exactly when it is; the loops
    always run to their end. *)
Theorem spawn_loop_defined_domain w cfg loopmax nthr data :
  is_uint w loopmax -> is_uint w nthr -> 0 < loopmax -> 0 < nthr ->
  HAVE_THREADS cfg = true ->
  (spawn_loop w cfg loopmax nthr data = DivisionByZero
     <-> 2 ^ w <= loopmax + nthr - 1) /\
  ((exists tr, spawn_loop w cfg loopmax nthr data = Ok tr)
     <-> loopmax + nthr - 1 < 2 ^ w).
Proof.
  intros Hl Hn Hl0 Hn0 Hth.
  destruct (Z_lt_le_dec (loopmax + nthr - 1) (2 ^ w)) as [Hfit|Hov].
  - destruct (spawn_loop_partitions w cfg loopmax nthr data Hl Hn Hl0 Hn0 Hfit)
      as (tr & Htr & _).
    split; split; intros H; try lia.
    + rewrite Htr in H. discriminate.
    + now exists tr.
  - pose proof (spawn_loop_division_by_zero w cfg loopmax nthr data Hl Hn
                  Hl0 Hn0 Hth Hov) as Hdz.
    split; split; intros H; trivial.
    + destruct H as [tr Htr]. rewrite Hdz in Htr. discriminate.
    + lia.
Qed.

Lemma spawn_loop_defined_domain_witness :
  (is_uint 32 4294967290 /\ is_uint 32 7 /\ 0 < 4294967290 /\ 0 < 7 /\
   HAVE_THREADS (mkconfig true (Some POSIX)) = true) /\
  spawn_loop 32 (mkconfig true (Some POSIX)) 4294967290 7 0 = DivisionByZero.
Proof.
  assert (H : is_uint 32 4294967290 /\ is_uint 32 7 /\ 0 < 4294967290 /\ 0 < 7)
    by (unfold is_uint; simpl; lia).
  split; [repeat split; try reflexivity; apply H|].
  destruct H as (H1 & H2 & H3 & H4).
  apply (proj1 (spawn_loop_defined_domain 32 (mkconfig true (Some POSIX))
                  4294967290 7 0 H1 H2 H3 H4 eq_refl)).
  simpl. lia.
Defined.

(** X2: whenever a call of [X(spawn_loop)] with [loopmax > 0] returns, in
    any variant and also when the sum of line 295 has wrapped, the blocks it
    handed to [proc] partition [0 .. loopmax-1], none of them is empty, they
    are numbered 0, 1, 2, ... in order, and their sizes add up to
    [loopmax]. *)
Theorem returned_blocks_cover_loop w cfg loopmax nthr data tr :
  is_uint w loopmax -> is_uint w nthr -> 0 < loopmax ->
  spawn_loop w cfg loopmax nthr data = Ok tr ->
  partitions loopmax (ranges tr) /\
  Forall (fun d => min d < max d) (ranges tr) /\
  map thr_num (ranges tr) = zseq 0 (length (ranges tr)) /\
  total_size (ranges tr) = loopmax.
Proof.
  intros Hl Hn Hl0 Hret.
  pose proof (spawn_loop_returned_chain w cfg loopmax nthr data tr Hl Hn Hl0
                Hret) as Hch.
  split; [now apply chain_partitions|].
  split; [eapply chain_nonempty; eassumption|].
  split; [eapply chain_numbered; eassumption|].
  rewrite (chain_total_size _ _ _ _ Hch). lia.
Qed.

Lemma returned_blocks_cover_loop_witness :
  (is_uint 32 4294967294 /\ is_uint 32 2 /\ 0 < 4294967294 /\
   spawn_loop 32 (mkconfig true (Some POSIX)) 4294967294 2 0
     = Ok [proc (mkspawn_data 0 4294967294 0 0)]) /\
  total_size (ranges [proc (mkspawn_data 0 4294967294 0 0)]) = 4294967294.
Proof.
  assert (H : is_uint 32 4294967294 /\ is_uint 32 2 /\ 0 < 4294967294)
    by (unfold is_uint; simpl; lia).
  assert (Hret : spawn_loop 32 (mkconfig true (Some POSIX)) 4294967294 2 0
                 = Ok [proc (mkspawn_data 0 4294967294 0 0)])
    by (vm_compute; reflexivity).
  split; [repeat split; try apply H; exact Hret|].
  destruct H as (H1 & H2 & H3).
  exact (proj2 (proj2 (proj2 (returned_blocks_cover_loop 32
           (mkconfig true (Some POSIX)) 4294967294 2 0 _ H1 H2 H3 Hret)))).
Defined.

(** ** Fork and join *)

Lemma existsb_eqb_zseq_below i k m : i < k -> existsb (Z.eqb i) (zseq k m) = false.
Proof.
  revert k. induction m as [|m IH]; simpl; intros k Hlt; [reflexivity|].
  rewrite IH by lia.
  now replace (i =? k) with false by (symmetry; apply Z.eqb_neq; lia).
Qed.

Lemma existsb_eqb_fresh i (l : list Z) :
  Forall (fun j => j < i) l -> existsb (Z.eqb i) l = false.
Proof.
  induction 1 as [|j l Hj _ IH]; simpl; [reflexivity|].
  rewrite IH.
  now replace (i =? j) with false by (symmetry; apply Z.eqb_neq; lia).
Qed.

Lemma filter_zseq_above i k m :
  i < k -> filter (fun j => negb (j =? i)) (zseq k m) = zseq k m.
Proof.
  revert k. induction m as [|m IH]; simpl; intros k Hlt; [reflexivity|].
  replace (k =? i) with false by (symmetry; apply Z.eqb_neq; lia).
  simpl. now rewrite IH by lia.
Qed.

Lemma live_after_spawns (f : Z -> spawn_data) m k live rest :
  Forall (fun j => j < k) live ->
  live_after live (map (fun i => fftw_thr_spawn i (f i)) (zseq k m) ++ rest)
  = live_after (live ++ zseq k m) rest.
Proof.
  revert k live. induction m as [|m IH]; simpl; intros k live Hlive.
  - now rewrite app_nil_r.
  - rewrite existsb_eqb_fresh by assumption.
    rewrite IH.
    + now rewrite <- app_assoc.
    + apply Forall_app. split.
      * eapply Forall_impl; [|exact Hlive]. simpl. intros; lia.
      * repeat constructor. lia.
Qed.

Lemma live_after_waits m k rest :
  live_after (zseq k m) (map fftw_thr_wait (zseq k m) ++ rest)
  = live_after [] rest.
Proof.
  revert k. induction m as [|m IH]; simpl; intros k; [reflexivity|].
  rewrite Z.eqb_refl. simpl.
  rewrite filter_zseq_above by lia. apply IH.
Qed.

Lemma live_at_calls_spawns (f : Z -> spawn_data) m k live rest :
  live_at_calls live
    (map (fun i => fftw_thr_spawn i (f i)) (zseq k m) ++ rest)
  = live_at_calls (live ++ zseq k m) rest.
Proof.
  revert k live. induction m as [|m IH]; simpl; intros k live.
  - now rewrite app_nil_r.
  - now rewrite IH, <- app_assoc.
Qed.

Lemma live_at_calls_waits l live rest :
  live_at_calls live (map fftw_thr_wait l ++ rest)
  = live_at_calls (fold_left (fun live i => filter (fun j => negb (j =? i)) live)
                     l live) rest.
Proof.
  revert live. induction l as [|i l IH]; simpl; intros live; [reflexivity|].
  apply IH.
Qed.

Lemma waited_app t1 t2 : waited (t1 ++ t2) = waited t1 ++ waited t2.
Proof. apply flat_map_app. Qed.

Lemma waited_map_wait l : waited (map fftw_thr_wait l) = l.
Proof. induction l; simpl; [reflexivity | now f_equal]. Qed.

Lemma waited_map_spawn (f : Z -> spawn_data) l :
  waited (map (fun i => fftw_thr_spawn i (f i)) l) = [].
Proof. induction l; simpl; trivial. Qed.

Lemma waited_map_proc ds : waited (map proc ds) = [].
Proof. induction ds; simpl; trivial. Qed.

Lemma spawned_map_proc ds : spawned (map proc ds) = [].
Proof. induction ds; simpl; trivial. Qed.

Lemma run_by_caller_map_proc ds : run_by_caller (map proc ds) = ds.
Proof. induction ds; simpl; [reflexivity | now f_equal]. Qed.

Lemma live_after_procs live ds rest :
  live_after live (map proc ds ++ rest) = live_after live rest.
Proof. induction ds; simpl; trivial. Qed.

(** X3: every call of [X(spawn_loop)] that returns has waited for each
    thread it spawned: no slot [tid[i]] is spawned into twice or waited for
    without a running thread, and no thread is left running at the return.
    When threads are spawned, all [nthr - 1] of them are running while the
    caller runs [proc] on its own block, and they are waited for in the order
    they were spawned. *)
Theorem spawn_loop_joins_every_thread w cfg loopmax nthr data tr :
  is_uint w loopmax -> is_uint w nthr ->
  spawn_loop w cfg loopmax nthr data = Ok tr ->
  live_after [] tr = Some [] /\
  waited tr = map thr_num (spawned tr) /\
  (forall block_size nthr',
      HAVE_THREADS cfg = true -> USING_COMPILER_THREADS cfg = false ->
      block_size_and_nthr w loopmax nthr = Ok (block_size, nthr') ->
      1 < nthr' ->
      live_at_calls [] tr = [zseq 0 (Z.to_nat (nthr' - 1))]).
Proof.
  intros Hl Hn Hret.
  destruct (HAVE_THREADS cfg) eqn:Hth.
  2:{ unfold spawn_loop in Hret. rewrite Hth in Hret. injection Hret as <-.
      repeat split; try reflexivity. discriminate. }
  destruct (spawn_loop_returned w cfg loopmax nthr data tr Hl Hn Hth Hret)
    as (Hl0 & Hn0 & Hfit & bs & n & Hbn & Hbs & Hshape).
  destruct Hshape as [[Hle ->] | [(Hlt & Hct & ->) | (Hlt & Hct & ->)]].
  - repeat split; try reflexivity.
    intros bs' n' _ _ Hbn' Hlt'. rewrite Hbn in Hbn'.
    injection Hbn' as <- <-. lia.
  - split; [|split].
    + unfold compiler_trace. simpl. now rewrite live_after_procs.
    + unfold compiler_trace.
      rewrite !waited_app, !spawned_app, waited_map_proc, spawned_map_proc.
      reflexivity.
    + intros bs' n' _ Hct'. rewrite Hct in Hct'. discriminate.
  - split; [|split].
    + unfold spawning_trace. simpl.
      rewrite live_after_spawns by constructor. simpl.
      rewrite live_after_waits. reflexivity.
    + rewrite spawned_spawning_trace. unfold spawning_trace.
      rewrite !waited_app, waited_map_spawn, waited_map_wait, map_map.
      cbn [thr_num]. rewrite map_id. simpl. apply app_nil_r.
    + intros bs' n' _ _ Hbn' Hlt'. rewrite Hbn in Hbn'.
      injection Hbn' as <- <-.
      unfold spawning_trace. simpl.
      rewrite live_at_calls_spawns. simpl.
      rewrite live_at_calls_waits. reflexivity.
Qed.

Lemma spawn_loop_joins_every_thread_witness :
  (is_uint 32 5 /\ is_uint 32 4 /\
   spawn_loop 32 (mkconfig true (Some POSIX)) 5 4 0
   = Ok (spawning_trace 5 2 3 0)) /\
  live_after [] (spawning_trace 5 2 3 0) = Some [] /\
  waited (spawning_trace 5 2 3 0)
    = map thr_num (spawned (spawning_trace 5 2 3 0)).
Proof.
  assert (H : is_uint 32 5 /\ is_uint 32 4) by (unfold is_uint; simpl; lia).
  assert (Hret : spawn_loop 32 (mkconfig true (Some POSIX)) 5 4 0
                 = Ok (spawning_trace 5 2 3 0)) by (vm_compute; reflexivity).
  split; [repeat split; try apply H; exact Hret|].
  destruct H as (H1 & H2).
  destruct (spawn_loop_joins_every_thread 32 (mkconfig true (Some POSIX))
              5 4 0 _ H1 H2 Hret) as (Hlive & Hw & _).
  split; assumption.
Defined.

(** X4: the variant without threads and the compiler-managed variants never
    spawn a thread and never wait for one: every block of a call that
    returns is run by [proc] called from the loop itself. *)
Theorem spawn_loop_without_spawning w cfg loopmax nthr data tr :
  is_uint w loopmax -> is_uint w nthr ->
  HAVE_THREADS cfg = false \/ USING_COMPILER_THREADS cfg = true ->
  spawn_loop w cfg loopmax nthr data = Ok tr ->
  spawned tr = [] /\ waited tr = [] /\ run_by_caller tr = ranges tr.
Proof.
  intros Hl Hn Hcfg Hret.
  destruct (HAVE_THREADS cfg) eqn:Hth.
  2:{ unfold spawn_loop in Hret. rewrite Hth in Hret. injection Hret as <-.
      repeat split; reflexivity. }
  destruct Hcfg as [Hno|Hct]; [discriminate|].
  destruct (spawn_loop_returned w cfg loopmax nthr data tr Hl Hn Hth Hret)
    as (_ & _ & _ & bs & n & _ & _ & Hshape).
  destruct Hshape as [[_ ->] | [(_ & _ & ->) | (_ & Hct' & _)]].
  - repeat split; reflexivity.
  - unfold compiler_trace.
    rewrite !spawned_app, !waited_app, !run_by_caller_app, !ranges_app.
    rewrite spawned_map_proc, waited_map_proc, run_by_caller_map_proc,
      ranges_map_proc.
    repeat split; reflexivity.
  - rewrite Hct in Hct'. discriminate.
Qed.

Lemma spawn_loop_without_spawning_witness :
  (is_uint 32 5 /\ is_uint 32 4 /\
   (HAVE_THREADS (mkconfig true (Some OPENMP)) = false \/
    USING_COMPILER_THREADS (mkconfig true (Some OPENMP)) = true) /\
   spawn_loop 32 (mkconfig true (Some OPENMP)) 5 4 0
   = Ok (compiler_trace 5 2 3 0)) /\
  spawned (compiler_trace 5 2 3 0) = [].
Proof.
  assert (H : is_uint 32 5 /\ is_uint 32 4) by (unfold is_uint; simpl; lia).
  assert (Hret : spawn_loop 32 (mkconfig true (Some OPENMP)) 5 4 0
                 = Ok (compiler_trace 5 2 3 0)) by (vm_compute; reflexivity).
  split; [split; [apply H | split; [apply H | split;
          [right; reflexivity | exact Hret]]]|].
  destruct H as (H1 & H2).
  exact (proj1 (spawn_loop_without_spawning 32 (mkconfig true (Some OPENMP))
                  5 4 0 _ H1 H2 (or_intror eq_refl) Hret)).
Defined.

(** ** The choice of lines 294-295 *)

(** When a thread is left, neither sum has wrapped. *)
Lemma some_thread w loopmax nthr block_size nthr' :
  is_uint w loopmax -> is_uint w nthr -> 0 < loopmax -> 0 < nthr ->
  block_size_and_nthr w loopmax nthr = Ok (block_size, nthr') ->
  1 <= nthr' ->
  block_size = (loopmax + nthr - 1) / nthr /\
  nthr' = (loopmax + block_size - 1) / block_size /\
  loopmax + nthr - 1 < 2 ^ w /\
  loopmax + block_size - 1 < 2 ^ w /\
  1 <= block_size <= loopmax /\
  (block_size - 1) * nthr < loopmax <= block_size * nthr /\
  nthr' <= nthr /\
  (nthr' - 1) * block_size < loopmax <= nthr' * block_size.
Proof.
  intros Hl Hn Hl0 Hn0 Heq Hge.
  rewrite block_size_and_nthr_cases in Heq by assumption. cbv zeta in Heq.
  destruct (Z.leb_spec (2 ^ w) (loopmax + nthr - 1)); [discriminate|].
  destruct (Z.leb_spec (2 ^ w) (loopmax + (loopmax + nthr - 1) / nthr - 1));
    injection Heq as <- <-; [lia|].
  pose proof (block_partition_bounds loopmax nthr Hl0 Hn0) as Hp.
  pose proof (ceiling_bounds loopmax nthr Hl0 Hn0) as Hc.
  cbv zeta in Hp.
  set (bs := (loopmax + nthr - 1) / nthr) in *.
  repeat split; try lia; nia.
Qed.

(** X5: the comment of lines 289-293, whenever a thread is left: the block
    size is the least for which [nthr] blocks cover the loop (the critical
    path is minimal), and the number of threads is the least for which
    blocks of that size cover it (the fewest threads with that critical
    path). *)
Theorem block_size_and_nthr_least w loopmax nthr block_size nthr' :
  is_uint w loopmax -> is_uint w nthr -> 0 < loopmax -> 0 < nthr ->
  block_size_and_nthr w loopmax nthr = Ok (block_size, nthr') ->
  1 <= nthr' ->
  loopmax <= block_size * nthr /\
  (forall b, loopmax <= b * nthr -> block_size <= b) /\
  loopmax <= nthr' * block_size /\
  (forall n, loopmax <= n * block_size -> nthr' <= n).
Proof.
  intros Hl Hn Hl0 Hn0 Heq Hge.
  destruct (some_thread w loopmax nthr block_size nthr' Hl Hn Hl0 Hn0 Heq Hge)
    as (_ & _ & _ & _ & Hb & Hbn & _ & Hnb).
  repeat split; try lia.
  - intros b Hb'. destruct (Z_lt_le_dec b block_size); [nia | lia].
  - intros n Hn'. destruct (Z_lt_le_dec n nthr'); [nia | lia].
Qed.

Lemma block_size_and_nthr_least_witness :
  (is_uint 32 5 /\ is_uint 32 4 /\ 0 < 5 /\ 0 < 4 /\
   block_size_and_nthr 32 5 4 = Ok (2, 3) /\ 1 <= 3) /\
  (forall b, 5 <= b * 4 -> 2 <= b) /\
  (forall n, 5 <= n * 2 -> 3 <= n).
Proof.
  assert (H : is_uint 32 5 /\ is_uint 32 4 /\ 0 < 5 /\ 0 < 4 /\
              block_size_and_nthr 32 5 4 = Ok (2, 3) /\ 1 <= 3).
  { unfold is_uint. repeat split; try reflexivity; simpl; lia. }
  split; [exact H|]. destruct H as (H1 & H2 & H3 & H4 & H5 & H6).
  destruct (block_size_and_nthr_least 32 5 4 2 3 H1 H2 H3 H4 H5 H6)
    as (_ & Hb & _ & Hn).
  split; assumption.
Defined.

(** X6: asking again with the number of threads that a call has settled on
    changes nothing: lines 294-295 give the same block size and the same
    number of threads, and [X(spawn_loop)] does exactly the same. *)
Theorem spawn_loop_settled_nthr w cfg loopmax nthr data block_size nthr' :
  is_uint w loopmax -> is_uint w nthr -> 0 < loopmax -> 0 < nthr ->
  block_size_and_nthr w loopmax nthr = Ok (block_size, nthr') ->
  1 <= nthr' ->
  block_size_and_nthr w loopmax nthr' = Ok (block_size, nthr') /\
  spawn_loop w cfg loopmax nthr' data = spawn_loop w cfg loopmax nthr data.
Proof.
  intros Hl Hn Hl0 Hn0 Heq Hge.
  destruct (some_thread w loopmax nthr block_size nthr' Hl Hn Hl0 Hn0 Heq Hge)
    as (Hbs & Hn' & Hf1 & Hf2 & Hb & Hbn & Hle & Hnb).
  assert (is_uint w nthr') as Hu by (unfold is_uint in *; lia).
  assert (Hagain : block_size_and_nthr w loopmax nthr' = Ok (block_size, nthr')).
  { rewrite block_size_and_nthr_cases by (trivial; lia). cbv zeta.
    assert ((loopmax + nthr' - 1) / nthr' = block_size) as ->.
    { symmetry. apply (Z.div_unique_pos _ _ _
                         (loopmax + nthr' - 1 - nthr' * block_size)); nia. }
    replace (2 ^ w <=? loopmax + nthr' - 1) with false
      by (symmetry; apply Z.leb_gt; lia).
    replace (2 ^ w <=? loopmax + block_size - 1) with false
      by (symmetry; apply Z.leb_gt; lia).
    now rewrite <- Hn'. }
  split; [exact Hagain|].
  destruct (HAVE_THREADS cfg) eqn:Hth.
  - rewrite !spawn_loop_asserted by (trivial; lia).
    now rewrite Hagain, Heq.
  - unfold spawn_loop. now rewrite Hth.
Qed.

Lemma spawn_loop_settled_nthr_witness :
  (is_uint 32 5 /\ is_uint 32 4 /\ 0 < 5 /\ 0 < 4 /\
   block_size_and_nthr 32 5 4 = Ok (2, 3) /\ 1 <= 3) /\
  block_size_and_nthr 32 5 3 = Ok (2, 3) /\
  spawn_loop 32 (mkconfig true (Some POSIX)) 5 3 0
  = spawn_loop 32 (mkconfig true (Some POSIX)) 5 4 0.
Proof.
  assert (H : is_uint 32 5 /\ is_uint 32 4 /\ 0 < 5 /\ 0 < 4 /\
              block_size_and_nthr 32 5 4 = Ok (2, 3) /\ 1 <= 3).
  { unfold is_uint. repeat split; try reflexivity; simpl; lia. }
  split; [exact H|]. destruct H as (H1 & H2 & H3 & H4 & H5 & H6).
  exact (spawn_loop_settled_nthr 32 (mkconfig true (Some POSIX)) 5 4 0 2 3
           H1 H2 H3 H4 H5 H6).
Defined.

(** The blocks of the threaded variants when a thread is left. *)
Lemma spawn_loop_blocks w cfg loopmax nthr data block_size nthr' :
  is_uint w loopmax -> is_uint w nthr -> 0 < loopmax -> 0 < nthr ->
  HAVE_THREADS cfg = true ->
  block_size_and_nthr w loopmax nthr = Ok (block_size, nthr') ->
  1 <= nthr' ->
  exists tr,
    spawn_loop w cfg loopmax nthr data = Ok tr /\
    ranges tr = blocks loopmax block_size nthr' data.
Proof.
  intros Hl Hn Hl0 Hn0 Hth Heq Hge.
  destruct (some_thread w loopmax nthr block_size nthr' Hl Hn Hl0 Hn0 Heq Hge)
    as (_ & _ & _ & _ & Hb & _ & _ & Hnb).
  destruct (Z_le_gt_dec nthr' 1) as [Hle|Hgt].
  - exists (whole_loop loopmax data). split.
    + now apply (spawn_loop_one_thread w cfg loopmax nthr data Hl0 Hn0 Hth
                   block_size nthr').
    + assert (nthr' = 1) as -> by lia. unfold blocks. simpl.
      now replace (Z.min block_size loopmax) with loopmax by lia.
  - assert (1 < nthr') as Hlt by lia.
    destruct (USING_COMPILER_THREADS cfg) eqn:Hct.
    + exists (compiler_trace loopmax block_size nthr' data). split.
      * now apply spawn_loop_compiler_threads.
      * apply ranges_compiler_trace.
    + exists (spawning_trace loopmax block_size nthr' data). split.
      * now apply spawn_loop_spawning_threads.
      * apply ranges_spawning_trace; lia.
Qed.

(** X7: with at least as many threads asked for as there are iterations,
    and [loopmax + nthr - 1] representable, the threaded variants use
    [loopmax] threads of one iteration each. *)
Theorem spawn_loop_one_iteration_each w cfg loopmax nthr data :
  is_uint w loopmax -> is_uint w nthr -> 0 < loopmax ->
  HAVE_THREADS cfg = true ->
  loopmax <= nthr -> loopmax + nthr - 1 < 2 ^ w ->
  block_size_and_nthr w loopmax nthr = Ok (1, loopmax) /\
  exists tr,
    spawn_loop w cfg loopmax nthr data = Ok tr /\
    ranges tr = map (fun i => mkspawn_data i (i + 1) i data)
                    (zseq 0 (Z.to_nat loopmax)).
Proof.
  intros Hl Hn Hl0 Hth Hle Hfit.
  assert (0 < nthr) as Hn0 by lia.
  assert (Heq : block_size_and_nthr w loopmax nthr = Ok (1, loopmax)).
  { rewrite block_size_and_nthr_cases by assumption. cbv zeta.
    assert ((loopmax + nthr - 1) / nthr = 1) as ->.
    { symmetry. apply (Z.div_unique_pos _ _ _ (loopmax - 1)); lia. }
    replace (2 ^ w <=? loopmax + nthr - 1) with false
      by (symmetry; apply Z.leb_gt; lia).
    unfold is_uint in *.
    replace (2 ^ w <=? loopmax + 1 - 1) with false
      by (symmetry; apply Z.leb_gt; lia).
    rewrite Z.div_1_r. do 2 f_equal. lia. }
  split; [exact Heq|].
  destruct (spawn_loop_blocks w cfg loopmax nthr data 1 loopmax Hl Hn Hl0 Hn0
              Hth Heq ltac:(lia)) as (tr & Htr & Hr).
  exists tr. split; [exact Htr|]. rewrite Hr. unfold blocks.
  apply map_ext_in. intros i Hi. apply in_zseq in Hi.
  f_equal; lia.
Qed.

Lemma spawn_loop_one_iteration_each_witness :
  (is_uint 32 3 /\ is_uint 32 8 /\ 0 < 3 /\
   HAVE_THREADS (mkconfig true (Some POSIX)) = true /\
   3 <= 8 /\ 3 + 8 - 1 < 2 ^ 32) /\
  block_size_and_nthr 32 3 8 = Ok (1, 3).
Proof.
  assert (H : is_uint 32 3 /\ is_uint 32 8 /\ 0 < 3 /\ 3 <= 8
              /\ 3 + 8 - 1 < 2 ^ 32)
    by (unfold is_uint; simpl; lia).
  split; [repeat split; try reflexivity; apply H|].
  destruct H as (H1 & H2 & H3 & H4 & H5).
  exact (proj1 (spawn_loop_one_iteration_each 32 (mkconfig true (Some POSIX))
                  3 8 0 H1 H2 H3 eq_refl H4 H5)).
Defined.

(** X8: when [nthr] divides [loopmax] and neither sum wraps, all the [nthr]
    threads asked for are used and every block has [loopmax / nthr]
    iterations. *)
Theorem spawn_loop_even_split w cfg loopmax nthr data q :
  is_uint w loopmax -> is_uint w nthr -> 0 < loopmax -> 0 < nthr ->
  HAVE_THREADS cfg = true ->
  loopmax = q * nthr ->
  loopmax + nthr - 1 < 2 ^ w -> loopmax + q - 1 < 2 ^ w ->
  block_size_and_nthr w loopmax nthr = Ok (q, nthr) /\
  exists tr,
    spawn_loop w cfg loopmax nthr data = Ok tr /\
    ranges tr = map (fun i => mkspawn_data (i * q) (i * q + q) i data)
                    (zseq 0 (Z.to_nat nthr)).
Proof.
  intros Hl Hn Hl0 Hn0 Hth Hq Hfit1 Hfit2.
  assert (0 < q) as Hq0 by nia.
  assert (Heq : block_size_and_nthr w loopmax nthr = Ok (q, nthr)).
  { rewrite block_size_and_nthr_cases by assumption. cbv zeta.
    assert ((loopmax + nthr - 1) / nthr = q) as ->.
    { symmetry. apply (Z.div_unique_pos _ _ _ (nthr - 1)); lia. }
    replace (2 ^ w <=? loopmax + nthr - 1) with false
      by (symmetry; apply Z.leb_gt; lia).
    replace (2 ^ w <=? loopmax + q - 1) with false
      by (symmetry; apply Z.leb_gt; lia).
    do 2 f_equal.
    symmetry. apply (Z.div_unique_pos _ _ _ (q - 1)); lia. }
  split; [exact Heq|].
  destruct (spawn_loop_blocks w cfg loopmax nthr data q nthr Hl Hn Hl0 Hn0
              Hth Heq ltac:(lia)) as (tr & Htr & Hr).
  exists tr. split; [exact Htr|]. rewrite Hr. unfold blocks.
  apply map_ext_in. intros i Hi. apply in_zseq in Hi.
  f_equal. rewrite Z2Nat.id in Hi by lia. nia.
Qed.

Lemma spawn_loop_even_split_witness :
  (is_uint 32 12 /\ is_uint 32 4 /\ 0 < 12 /\ 0 < 4 /\
   HAVE_THREADS (mkconfig true (Some POSIX)) = true /\
   12 = 3 * 4 /\ 12 + 4 - 1 < 2 ^ 32 /\ 12 + 3 - 1 < 2 ^ 32) /\
  block_size_and_nthr 32 12 4 = Ok (3, 4).
Proof.
  assert (H : is_uint 32 12 /\ is_uint 32 4 /\ 0 < 12 /\ 0 < 4 /\
              12 + 4 - 1 < 2 ^ 32 /\ 12 + 3 - 1 < 2 ^ 32)
    by (unfold is_uint; simpl; lia).
  split; [repeat split; try reflexivity; apply H|].
  destruct H as (H1 & H2 & H3 & H4 & H5 & H6).
  exact (proj1 (spawn_loop_even_split 32 (mkconfig true (Some POSIX))
                  12 4 0 3 H1 H2 H3 H4 eq_refl eq_refl H5 H6)).
Defined.

Lemma critical_path_ge d ds : In d ds -> size d <= critical_path ds.
Proof.
  induction ds as [|d' ds IH]; simpl; intros Hin; [contradiction|].
  destruct Hin as [->|Hin]; [lia|]. specialize (IH Hin). lia.
Qed.

(** X9: whenever a thread is left, the threaded variants hand out
    [nthr - 1] blocks of exactly [block_size] iterations followed by a last
    block of at least one and at most [block_size] iterations that ends at
    [loopmax]; the largest block has exactly [block_size] iterations. *)
Theorem spawn_loop_block_sizes w cfg loopmax nthr data block_size nthr' :
  is_uint w loopmax -> is_uint w nthr -> 0 < loopmax -> 0 < nthr ->
  HAVE_THREADS cfg = true ->
  block_size_and_nthr w loopmax nthr = Ok (block_size, nthr') ->
  1 <= nthr' ->
  exists tr front last,
    spawn_loop w cfg loopmax nthr data = Ok tr /\
    ranges tr = front ++ [last] /\
    Z.of_nat (length front) = nthr' - 1 /\
    Forall (fun d => size d = block_size) front /\
    1 <= size last <= block_size /\
    max last = loopmax /\
    critical_path (ranges tr) = block_size.
Proof.
  intros Hl Hn Hl0 Hn0 Hth Heq Hge.
  destruct (some_thread w loopmax nthr block_size nthr' Hl Hn Hl0 Hn0 Heq Hge)
    as (_ & _ & _ & _ & Hb & _ & _ & Hnb).
  destruct (spawn_loop_blocks w cfg loopmax nthr data block_size nthr'
              Hl Hn Hl0 Hn0 Hth Heq Hge) as (tr & Htr & Hr).
  set (f := fun i => mkspawn_data (i * block_size)
                       (Z.min (i * block_size + block_size) loopmax) i data).
  assert (Hsplit : ranges tr
                   = map f (zseq 0 (Z.to_nat (nthr' - 1))) ++ [f (nthr' - 1)]).
  { rewrite Hr. unfold blocks. fold f.
    replace (Z.to_nat nthr') with (S (Z.to_nat (nthr' - 1))) by lia.
    rewrite zseq_snoc, map_app. simpl. now rewrite Z2Nat.id by lia. }
  assert (Hfront : Forall (fun d => size d = block_size)
                     (map f (zseq 0 (Z.to_nat (nthr' - 1))))).
  { apply Forall_forall. intros d Hd. apply in_map_iff in Hd.
    destruct Hd as (i & <- & Hi). apply in_zseq in Hi.
    unfold size, f. simpl. nia. }
  assert (Hlast : 1 <= size (f (nthr' - 1)) <= block_size)
    by (unfold size, f; simpl; nia).
  exists tr, (map f (zseq 0 (Z.to_nat (nthr' - 1)))), (f (nthr' - 1)).
  split; [exact Htr|]. split; [exact Hsplit|].
  split; [rewrite length_map, zseq_length; lia|].
  split; [exact Hfront|]. split; [exact Hlast|].
  split; [unfold f; simpl; nia|].
  apply Z.le_antisymm.
  - apply critical_path_le; [lia|]. rewrite Hsplit. apply Forall_app. split.
    + eapply Forall_impl; [|exact Hfront]. simpl. intros; lia.
    + repeat constructor. lia.
  - destruct (Z_le_gt_dec nthr' 1) as [Hle|Hgt].
    + assert (size (f (nthr' - 1)) = block_size)
        by (unfold size, f; simpl; nia).
      rewrite <- H at 1. apply critical_path_ge.
      rewrite Hsplit. apply in_or_app. right. now left.
    + assert (size (f 0) = block_size)
        by (unfold size, f; simpl; nia).
      rewrite <- H at 1. apply critical_path_ge.
      rewrite Hsplit. apply in_or_app. left.
      apply in_map, in_zseq. lia.
Qed.

Lemma spawn_loop_block_sizes_witness :
  (is_uint 32 5 /\ is_uint 32 4 /\ 0 < 5 /\ 0 < 4 /\
   HAVE_THREADS (mkconfig true (Some POSIX)) = true /\
   block_size_and_nthr 32 5 4 = Ok (2, 3) /\ 1 <= 3) /\
  exists tr,
    spawn_loop 32 (mkconfig true (Some POSIX)) 5 4 0 = Ok tr /\
    critical_path (ranges tr) = 2.
Proof.
  assert (H : is_uint 32 5 /\ is_uint 32 4 /\ 0 < 5 /\ 0 < 4 /\
              block_size_and_nthr 32 5 4 = Ok (2, 3) /\ 1 <= 3).
  { unfold is_uint. repeat split; try reflexivity; simpl; lia. }
  split; [repeat split; try reflexivity; apply H|].
  destruct H as (H1 & H2 & H3 & H4 & H5 & H6).
  destruct (spawn_loop_block_sizes 32 (mkconfig true (Some POSIX)) 5 4 0 2 3
              H1 H2 H3 H4 eq_refl H5 H6)
    as (tr & front & last & Htr & _ & _ & _ & _ & _ & Hcp).
  exists tr. split; assumption.
Defined.

(** ** [X(threads_init)] *)

Lemma posix_attributes_hooks env g r g' :
  posix_attributes env g = (r, g') ->
  malloc_hooks g' = malloc_hooks g /\ register_hooks g' = register_hooks g.
Proof.
  unfold posix_attributes.
  destruct (pthread_attr_getdetachstate env) as [e1 a1].
  destruct (pthread_attr_getscope env) as [e2 a2].
  repeat match goal with
         | |- context [if ?b then _ else _] => destruct b
         end;
    intros H; injection H as _ <-; split; reflexivity.
Qed.

(** X10: [X(threads_init)] returns 0 only in a build with threads and then
    has set the three register hooks; whenever it returns an error, be it
    "no threads" or the error of a pthread call, it has left them as they
    were. *)
Theorem threads_init_registers_on_success cfg env g :
  (fst (threads_init cfg env g) = 0 ->
     HAVE_THREADS cfg = true /\
     register_hooks (snd (threads_init cfg env g)) = true) /\
  (fst (threads_init cfg env g) <> 0 ->
     register_hooks (snd (threads_init cfg env g)) = register_hooks g).
Proof.
  unfold threads_init.
  destruct (USING cfg) as [api|].
  - destruct api;
      try (destruct (HAVE_THREADS cfg); simpl; split; intros H;
           try discriminate; try (now contradiction H); try (now split);
           destruct (MPLibraryIsLoaded env); reflexivity).
    destruct (posix_attributes env g) as [[err|] g'] eqn:Hp.
    + destruct (posix_attributes_hooks _ _ _ _ Hp) as [_ Hr].
      pose proof (posix_attributes_error _ _ _ _ Hp) as Herr.
      simpl. split; intros H; [contradiction | exact Hr].
    + destruct (posix_attributes_hooks _ _ _ _ Hp) as [_ Hr].
      destruct (HAVE_THREADS cfg); simpl; split; intros H;
        try discriminate; try (now contradiction H); try (now split);
        exact Hr.
  - destruct (HAVE_THREADS cfg); simpl; split; intros H;
      try discriminate; try (now contradiction H); try (now split);
      reflexivity.
Qed.

(** X11: when [X(threads_init)] succeeds in a POSIX build, every pthread
    call it made returned 0: the attributes were initialised and read, the
    detach state was set unless it was joinable already, the scope was set
    unless it was system-wide already; [fftw_pthread_attributes_p] is [NULL]
    exactly when neither had to be set, and the attributes were then
    destroyed. *)
Theorem threads_init_posix_success cfg env g :
  USING cfg = Some POSIX ->
  fst (threads_init cfg env g) = 0 ->
  pthread_attr_init env = 0 /\
  fst (pthread_attr_getdetachstate env) = 0 /\
  fst (pthread_attr_getscope env) = 0 /\
  (snd (pthread_attr_getdetachstate env) <> PTHREAD_CREATE_JOINABLE env ->
     pthread_attr_setdetachstate env = 0) /\
  (snd (pthread_attr_getscope env) <> PTHREAD_SCOPE_SYSTEM env ->
     pthread_attr_setscope env = 0) /\
  fftw_pthread_attributes_p (snd (threads_init cfg env g))
    = negb ((snd (pthread_attr_getdetachstate env)
               =? PTHREAD_CREATE_JOINABLE env)
            && (snd (pthread_attr_getscope env)
                  =? PTHREAD_SCOPE_SYSTEM env)) /\
  (fftw_pthread_attributes_p (snd (threads_init cfg env g)) = false ->
     pthread_attr_destroy env = 0).
Proof.
  intros Hposix. unfold threads_init, posix_attributes. rewrite Hposix.
  destruct (pthread_attr_getdetachstate env) as [e1 a1].
  destruct (pthread_attr_getscope env) as [e2 a2].
  cbn [fst snd].
  destruct (Z.eqb_spec (pthread_attr_init env) 0) as [Hi|Hi]; cbn [negb];
    [|intros H; now contradiction Hi].
  destruct (Z.eqb_spec e1 0) as [He1|He1]; cbn [negb];
    [|intros H; now contradiction He1].
  destruct (Z.eqb_spec a1 (PTHREAD_CREATE_JOINABLE env)) as [Ha1|Ha1];
    cbn [negb];
    [ destruct (Z.eqb_spec e1 0) as [_|C]; [|now contradiction C]
    | destruct (Z.eqb_spec (pthread_attr_setdetachstate env) 0) as [Hsd|Hsd];
      [|intros H; now contradiction Hsd] ];
    cbn [negb];
    (destruct (Z.eqb_spec e2 0) as [He2|He2]; cbn [negb];
       [|intros H; now contradiction He2]);
    (destruct (Z.eqb_spec a2 (PTHREAD_SCOPE_SYSTEM env)) as [Ha2|Ha2];
       cbn [negb orb andb];
       [ destruct (Z.eqb_spec e2 0) as [_|C]; [|now contradiction C]
       | destruct (Z.eqb_spec (pthread_attr_setscope env) 0) as [Hss|Hss];
         [|intros H; now contradiction Hss] ];
       cbn [negb]);
    try (destruct (Z.eqb_spec (pthread_attr_destroy env) 0) as [Hd|Hd];
         cbn [negb]; [|intros H; now contradiction Hd]);
    destruct (HAVE_THREADS cfg); cbn [fst snd fftw_pthread_attributes_p];
    intros H; try discriminate H;
    repeat split; trivial; try (intros C; now contradiction C);
    try discriminate.
Qed.

Lemma threads_init_posix_success_witness :
  (USING (mkconfig true (Some POSIX)) = Some POSIX /\
   fst (threads_init (mkconfig true (Some POSIX))
          (mkenvironment 0 (0, 1) 0 (0, 2) 0 0 false 0 2)
          (mkglobals false false false)) = 0) /\
  fftw_pthread_attributes_p
    (snd (threads_init (mkconfig true (Some POSIX))
            (mkenvironment 0 (0, 1) 0 (0, 2) 0 0 false 0 2)
            (mkglobals false false false))) = true.
Proof.
  split; [split; reflexivity|].
  exact (proj1 (proj2 (proj2 (proj2 (proj2 (proj2
           (threads_init_posix_success (mkconfig true (Some POSIX))
              (mkenvironment 0 (0, 1) 0 (0, 2) 0 0 false 0 2)
              (mkglobals false false false) eq_refl eq_refl))))))).
Defined.

Lemma threads_init_registers_on_success_witness :
  fst (threads_init (mkconfig true (Some SOLARIS))
         (mkenvironment 0 (0, 0) 0 (0, 0) 0 0 false 0 0)
         (mkglobals false false false)) = 0 /\
  HAVE_THREADS (mkconfig true (Some SOLARIS)) = true /\
  register_hooks
    (snd (threads_init (mkconfig true (Some SOLARIS))
            (mkenvironment 0 (0, 0) 0 (0, 0) 0 0 false 0 0)
            (mkglobals false false false))) = true.
Proof.
  split; [reflexivity|].
  exact (proj1 (threads_init_registers_on_success
                  (mkconfig true (Some SOLARIS))
                  (mkenvironment 0 (0, 0) 0 (0, 0) 0 0 false 0 0)
                  (mkglobals false false false)) eq_refl).
Defined.

(** ** When the loop is not split *)

(** X12: in the variants with threads, a call with [loopmax > 0] and
    [nthr > 0] runs the whole loop as one block in the calling thread
    exactly when it returns and one thread was asked for, or the loop has
    one iteration, or the sum [loopmax + block_size - 1] of line 295 is not
    representable; in every other call that returns the loop is split. *)
Theorem spawn_loop_not_split w cfg loopmax nthr data :
  is_uint w loopmax -> is_uint w nthr -> 0 < loopmax -> 0 < nthr ->
  HAVE_THREADS cfg = true ->
  spawn_loop w cfg loopmax nthr data = Ok [proc (mkspawn_data 0 loopmax 0 data)]
  <-> loopmax + nthr - 1 < 2 ^ w /\
      (loopmax = 1 \/ nthr = 1 \/
       2 ^ w <= loopmax + (loopmax + nthr - 1) / nthr - 1).
Proof.
  intros Hl Hn Hl0 Hn0 Hth.
  pose proof (block_size_and_nthr_cases w loopmax nthr Hl Hn Hl0 Hn0) as Hc.
  pose proof (block_partition_bounds loopmax nthr Hl0 Hn0) as Hp.
  pose proof (ceiling_bounds loopmax nthr Hl0 Hn0) as Hcb.
  cbv zeta in Hc, Hp.
  set (bs := (loopmax + nthr - 1) / nthr) in *.
  split.
  - intros Hret.
    destruct (spawn_loop_returned w cfg loopmax nthr data _ Hl Hn Hth Hret)
      as (_ & _ & Hfit & bs' & n & Hbn & _ & Hshape).
    split; [exact Hfit|].
    destruct Hshape as [[Hle _] | [(_ & _ & Hd) | (_ & _ & Hd)]];
      try discriminate Hd.
    rewrite Hbn in Hc.
    replace (2 ^ w <=? loopmax + nthr - 1) with false in Hc
      by (symmetry; apply Z.leb_gt; lia).
    destruct (Z.leb_spec (2 ^ w) (loopmax + bs - 1)) as [Hov|Hfit2];
      [now right; right|].
    injection Hc as -> ->.
    assert (bs = loopmax) by nia.
    destruct (Z.eq_dec nthr 1); [now right; left|].
    left. nia.
  - intros [Hfit Hcase].
    replace (2 ^ w <=? loopmax + nthr - 1) with false in Hc
      by (symmetry; apply Z.leb_gt; lia).
    destruct (Z.leb_spec (2 ^ w) (loopmax + bs - 1)) as [Hov|Hfit2].
    + apply (spawn_loop_one_thread w cfg loopmax nthr data Hl0 Hn0 Hth bs 0 Hc).
      lia.
    + apply (spawn_loop_one_thread w cfg loopmax nthr data Hl0 Hn0 Hth bs _ Hc).
      destruct Hcase as [H1 | [H1 | H1]]; [| |lia].
      * lia.
      * assert (bs = loopmax) by nia. lia.
Qed.

Lemma spawn_loop_not_split_witness :
  (is_uint 32 100 /\ is_uint 32 1 /\ 0 < 100 /\ 0 < 1 /\
   HAVE_THREADS (mkconfig true (Some POSIX)) = true) /\
  spawn_loop 32 (mkconfig true (Some POSIX)) 100 1 0
    = Ok [proc (mkspawn_data 0 100 0 0)].
Proof.
  assert (H : is_uint 32 100 /\ is_uint 32 1 /\ 0 < 100 /\ 0 < 1)
    by (unfold is_uint; simpl; lia).
  split; [repeat split; try reflexivity; apply H|].
  destruct H as (H1 & H2 & H3 & H4).
  apply (proj2 (spawn_loop_not_split 32 (mkconfig true (Some POSIX))
                  100 1 0 H1 H2 H3 H4 eq_refl)).
  split; [simpl; lia | right; left; reflexivity].
Defined.
